(** * The link queue and the broadcast loop of the Telegram deals bot

    A shallow embedding of [bot.py] and [bot_api.py]: the JSON-backed
    link queue, the command handlers that author and consume links, and
    the broadcast pass over the chat registry.

    The interpreter state of the bot (the module-level [link_queue], the
    two JSON documents on disk, the messages handed to Telegram and the
    logger) is threaded explicitly through a state monad.  Everything that
    the program does not decide itself — whether a file write goes
    through, whether Telegram accepts a message, what the product page or
    the vendor API answers — is read from an environment of oracles,
    indexed by the number of external calls made so far, so that every
    result below holds for every behaviour of the outside world. *)

From Stdlib Require Import Ascii.
From stdpp Require Import base numbers option list strings pretty gmap.

Open Scope string_scope.
Open Scope list_scope.

(** ** Data model *)

(** A link record is the Python [dict] built by [handle_add_link]: string
    keys, and string values in every record the handlers create. *)
Abbreviation LinkRecord := (gmap string string).

(** [chat.type] as Telegram reports it. *)
Inductive ChatType : Type :=
  | private
  | group
  | supergroup
  | channel.

Definition is_private (t : ChatType) : bool :=
  match t with
  | private => true
  | _ => false
  end.

(** What a handler reads from [update] and [context]: the effective chat
    and the whitespace-separated arguments of the command. *)
Record Update : Type := mkUpdate {
  chat_type : ChatType;
  chat_id : Z;
  chat_title : string;
  args : list string
}.

(** A JSON document on disk.  [Unreadable] stands for any content on which
    [json.load] raises (a truncated or partial write, for instance). *)
Inductive File (A : Type) : Type :=
  | Missing
  | Stored (doc : A)
  | Unreadable.
Arguments Missing {A}.
Arguments Stored {A} doc.
Arguments Unreadable {A}.

(** How [open(path, 'w')] followed by [json.dump] can end. *)
Inductive WriteOutcome : Type :=
  | Written
  | OpenFailed
  | DumpFailed.

(** The texts passed to [update.message.reply_text], one constructor per
    literal in the source, with the interpolated values as arguments. *)
Inductive Reply : Type :=
  | PrivateOnly
  | AddLinkUsage
  | LookingUpProductId
  | ProductIdNotFound
  | LookingUpProductDetails
  | ProductDetailsNotFound
  | GeneratingAffiliateLink
  | AffiliateLinkNotGenerated
  | LinkAdded (title link : string)
  | AddLinkError
  | UpdateLinkUsage
  | InvalidLinkNumber
  | LinkUpdated (title price original_price discount : string)
  | UpdateLinkError
  | NoStoredLinks
  | StoredLinks (text : string)
  | AllLinksDeleted
  | SentToAllGroups
  | NoActiveGroups
  | PublishError.

(** The calls to [logger]. *)
Inductive LogEntry : Type :=
  | ErrorLoadingLinks
  | ErrorSavingLinks
  | ErrorLoadingChats
  | NoLinksAvailable
  | SentRealDeal (chat_title : string) (chat_id : Z)
  | ErrorSendingRealDeal (chat_title : string)
  | ErrorExtractingProductId
  | RedirectFailed (status : Z)
  | FinalUrlAfterRedirects (final_url : string)
  | ErrorFetchingProductDetails
  | ErrorUpdatingLink
  | ErrorSendingToAllGroups
  | ScheduledDealsSent
  | NoChatsForScheduledDeals
  | ErrorInScheduledDeals.

(** The outside world.  Each oracle takes the value of the call counter
    at the moment of the call. *)
Record Env : Type := mkEnv {
  (** [open(LINKS_FILE, 'w')] and [json.dump] in [save_links] *)
  fs_write : nat -> WriteOutcome;
  (** [bot.send_message]: [false] when it raises *)
  send_message_ok : nat -> bool;
  (** [session.get(url, allow_redirects=True)] in [extract_product_id]:
      [None] when it raises, otherwise the status and the final URL *)
  follow_redirects : nat -> string -> option (Z * string);
  (** the product page as scraped by [fetch_product_details] of [bot.py],
      or [aliexpress.get_products_details] of [bot_api.py]: the title, or
      [None] when nothing was found or the call raised *)
  product_title : nat -> string -> option string;
  (** [aliexpress.get_affiliate_links(url)[0].promotion_link], or [None]
      when the list is empty or the call raised *)
  promotion_link : nat -> string -> option string
}.

(** The program state: the global deque, the two documents, and the
    observable output. *)
Record World : Type := mkWorld {
  link_queue : list LinkRecord;
  links_file : File (list LinkRecord);
  chats_file : File (list (string * string));
  sent : list (Z * string);
  replies : list Reply;
  log : list LogEntry;
  clock : nat
}.

(** ** The state monad *)

Definition M (A : Type) : Type := World -> A * World.

Global Instance M_ret : MRet M := fun A (a : A) w => (a, w).
Global Instance M_bind : MBind M :=
  fun A B (f : A -> M B) (m : M A) w => let '(a, w') := m w in f a w'.

Definition exec {A} (m : M A) (w : World) : World := snd (m w).
Definition eval {A} (m : M A) (w : World) : A := fst (m w).

Definition gets {A} (f : World -> A) : M A := fun w => (f w, w).
Definition modify (f : World -> World) : M unit := fun w => (tt, f w).

Definition set_link_queue (q : list LinkRecord) (w : World) : World :=
  mkWorld q (links_file w) (chats_file w) (sent w) (replies w) (log w) (clock w).
Definition set_links_file (f : File (list LinkRecord)) (w : World) : World :=
  mkWorld (link_queue w) f (chats_file w) (sent w) (replies w) (log w) (clock w).
Definition add_sent (m : Z * string) (w : World) : World :=
  mkWorld (link_queue w) (links_file w) (chats_file w) (sent w ++ [m])
          (replies w) (log w) (clock w).
Definition add_reply (r : Reply) (w : World) : World :=
  mkWorld (link_queue w) (links_file w) (chats_file w) (sent w)
          (replies w ++ [r]) (log w) (clock w).
Definition add_log (e : LogEntry) (w : World) : World :=
  mkWorld (link_queue w) (links_file w) (chats_file w) (sent w) (replies w)
          (log w ++ [e]) (clock w).
Definition set_clock (n : nat) (w : World) : World :=
  mkWorld (link_queue w) (links_file w) (chats_file w) (sent w) (replies w)
          (log w) n.

(** One external call: returns its index and advances the counter. *)
Definition tick : M nat := fun w => (clock w, set_clock (S (clock w)) w).

(** [update.message.reply_text]: the reply is recorded; the call itself
    is taken to go through. *)
Definition reply_text (r : Reply) : M unit := modify (add_reply r).
Definition logger (e : LogEntry) : M unit := modify (add_log e).

(** ** Persistence and the queue operations (identical in both files) *)

Section Core.
Context (env : Env).

(** [load_links], bot.py 38-47. *)
Definition load_links : M (list LinkRecord) :=
  f ← gets links_file;
  match f with
  | Missing => mret []
  | Stored doc => mret doc
  | Unreadable => logger ErrorLoadingLinks;; mret []
  end.

(** [save_links], bot.py 49-55: the whole queue is rewritten; any
    exception is logged and swallowed. *)
Definition save_links : M unit :=
  n ← tick;
  q ← gets link_queue;
  match fs_write env n with
  | Written => modify (set_links_file (Stored q))
  | OpenFailed => logger ErrorSavingLinks
  | DumpFailed => modify (set_links_file Unreadable);; logger ErrorSavingLinks
  end.

(** Module initialisation, bot.py 58: [link_queue = load_links()]. *)
Definition startup : M unit :=
  q ← load_links;
  modify (set_link_queue q).

(** bot.py 269-270: [link_queue.append(new_link); save_links()]. *)
Definition enqueue (r : LinkRecord) : M unit :=
  q ← gets link_queue;
  modify (set_link_queue (q ++ [r]));;
  save_links.

(** bot.py 383-389: the emptiness guard, [popleft] and [save_links]. *)
Definition dequeue_front : M (option LinkRecord) :=
  q ← gets link_queue;
  match q with
  | [] => logger NoLinksAvailable;; mret None
  | deal :: rest =>
      modify (set_link_queue rest);;
      save_links;;
      mret (Some deal)
  end.

(** bot.py 357-358: [link_queue.clear(); save_links()]. *)
Definition clear : M unit :=
  modify (set_link_queue []);;
  save_links.
End Core.

(** ** Python strings and the built-ins [int], [in] and [re.search]

    A Python [str] is a sequence of Unicode code points; it is kept here
    as its UTF-8 encoding.  [int] and the class [\d] of [re] read every
    decimal digit of Unicode, not the ASCII ones alone, so both are
    defined on code points.  The tables are those of Unicode 14.0, which
    CPython 3.11 carries. *)

(** The payload of a continuation byte. *)
Definition continuation (a : ascii) : option N :=
  let n := N_of_ascii a in
  if (128 <=? n)%N && (n <? 192)%N then Some (n - 128)%N else None.

(** The first code point of a string, the bytes that encode it, and what
    follows them.  A byte that starts no well-formed UTF-8 sequence is
    taken alone and stands for no code point. *)
Definition decode_one (s : string) : option (option N * string * string) :=
  match s with
  | EmptyString => None
  | String a s1 =>
      let b := N_of_ascii a in
      let ill_formed := Some (None, String a EmptyString, s1) in
      if (b <? 128)%N then Some (Some b, String a EmptyString, s1)
      else
        match s1 with
        | String a1 s2 =>
            match continuation a1 with
            | Some c1 =>
                if (194 <=? b)%N && (b <? 224)%N then
                  Some (Some ((b - 192) * 64 + c1)%N,
                        String a (String a1 EmptyString), s2)
                else
                  match s2 with
                  | String a2 s3 =>
                      match continuation a2 with
                      | Some c2 =>
                          let cp3 := (((b - 224) * 64 + c1) * 64 + c2)%N in
                          if (224 <=? b)%N && (b <? 240)%N
                             && (2048 <=? cp3)%N
                             && negb ((55296 <=? cp3)%N && (cp3 <? 57344)%N)
                          then
                            Some (Some cp3,
                                  String a (String a1 (String a2 EmptyString)),
                                  s3)
                          else
                            match s3 with
                            | String a3 s4 =>
                                match continuation a3 with
                                | Some c3 =>
                                    let cp4 :=
                                      ((((b - 240) * 64 + c1) * 64 + c2) * 64
                                       + c3)%N in
                                    if (240 <=? b)%N && (b <? 245)%N
                                       && (65536 <=? cp4)%N
                                       && (cp4 <? 1114112)%N
                                    then
                                      Some (Some cp4,
                                            String a (String a1 (String a2
                                              (String a3 EmptyString))),
                                            s4)
                                    else ill_formed
                                | None => ill_formed
                                end
                            | EmptyString => ill_formed
                            end
                      | None => ill_formed
                      end
                  | EmptyString => ill_formed
                  end
            | None => ill_formed
            end
        | EmptyString => ill_formed
        end
  end.

(** The code points of a string, each with its encoding.  Every step
    takes at least one byte, so the length of the string is fuel
    enough. *)
Fixpoint code_points_upto (fuel : nat) (s : string)
  : list (option N * string) :=
  match fuel with
  | O => []
  | S fuel' =>
      match decode_one s with
      | None => []
      | Some (cp, enc, rest) => (cp, enc) :: code_points_upto fuel' rest
      end
  end.

Definition code_points (s : string) : list (option N * string) :=
  code_points_upto (String.length s) s.

(** The code points of the digits zero of Unicode (general category Nd);
    the digits one to nine of a script follow its zero. *)
Definition decimal_zeros : list N :=
  [48; 1632; 1776; 1984; 2406; 2534; 2662; 2790; 2918; 3046; 3174;
   3302; 3430; 3558; 3664; 3792; 3872; 4160; 4240; 6112; 6160; 6470;
   6608; 6784; 6800; 6992; 7088; 7232; 7248; 42528; 43216; 43264;
   43472; 43504; 43600; 44016; 65296; 66720; 68912; 69734; 69872;
   69942; 70096; 70384; 70736; 70864; 71248; 71360; 71472; 71904;
   72016; 72784; 73040; 73120; 92768; 92864; 93008; 120782; 120792;
   120802; 120812; 120822; 123200; 123632; 125264; 130032]%N.

(** [unicodedata.decimal]: the value of a decimal digit. *)
Definition decimal_value (cp : N) : option Z :=
  zero ← List.find (fun zero => (zero <=? cp)%N && (cp <? zero + 10)%N)
                   decimal_zeros;
  Some (Z.of_N (cp - zero)).

(** The white space of Unicode outside ASCII. *)
Definition unicode_space (cp : N) : bool :=
  bool_decide (cp ∈ [133; 160; 5760; 8232; 8233; 8239; 8287; 12288]%N)
  || (8192 <=? cp)%N && (cp <=? 8202)%N.

(** What [int] makes of a code point before it parses: ASCII stays,
    other white space becomes a space, other decimal digits become the
    ASCII digit of the same value, and anything else cannot be part of a
    number. *)
Definition ascii_form_char (c : option N * string) : ascii :=
  match c.1 with
  | None => "?"%char
  | Some cp =>
      if (cp <? 127)%N then ascii_of_N cp
      else if unicode_space cp then " "%char
      else
        match decimal_value cp with
        | Some d => ascii_of_N (48 + Z.to_N d)
        | None => "?"%char
        end
  end.

Definition ascii_form (s : string) : string :=
  String.string_of_list_ascii (ascii_form_char <$> code_points s).

Definition digit_value (a : ascii) : option Z :=
  let n := Z.of_N (N_of_ascii a) in
  if bool_decide (48 ≤ n ≤ 57)%Z then Some (n - 48)%Z else None.

(** The white space that the parser skips: space, tab, line feed,
    vertical tab, form feed, carriage return. *)
Definition is_space (a : ascii) : bool :=
  let n := N_of_ascii a in
  bool_decide (n = 32 ∨ 9 ≤ n ≤ 13)%N.

Fixpoint all_space (s : string) : bool :=
  match s with
  | EmptyString => true
  | String a s' => is_space a && all_space s'
  end.

Fixpoint lstrip (s : string) : string :=
  match s with
  | EmptyString => EmptyString
  | String a s' => if is_space a then lstrip s' else s
  end.

(** The digits of a decimal literal: single underscores are allowed
    between digits, and only white space may follow the last digit.
    [after_digit] tells whether the previous character was a digit. *)
Fixpoint int_digits (acc : Z) (after_digit : bool) (s : string) : option Z :=
  match s with
  | EmptyString => if after_digit then Some acc else None
  | String a s' =>
      match digit_value a with
      | Some d => int_digits (10 * acc + d)%Z true s'
      | None =>
          if after_digit && Ascii.eqb a "_"%char then
            match s' with
            | EmptyString => None
            | _ => int_digits acc false s'
            end
          else if after_digit && all_space s then Some acc
          else None
      end
  end.

(** The parser of [int] on the ASCII form, in base ten: white space
    around, an optional sign, digits with single underscores between
    them.  [None] is [ValueError]. *)
Definition parse_decimal (s : string) : option Z :=
  match lstrip s with
  | String a s' =>
      if Ascii.eqb a "-"%char then Z.opp <$> int_digits 0 false s'
      else if Ascii.eqb a "+"%char then int_digits 0 false s'
      else int_digits 0 false (String a s')
  | EmptyString => None
  end.

(** [int(s)] for a [str]; [None] is [ValueError].  The limit that recent
    versions put on the number of digits (4300) is not modelled: it is
    beyond what a Telegram message, of 4096 characters at most, or a
    chat identifier can hold. *)
Definition py_int (s : string) : option Z := parse_decimal (ascii_form s).

Fixpoint strip_prefix (p s : string) : option string :=
  match p, s with
  | EmptyString, _ => Some s
  | String a p', String b s' =>
      if Ascii.eqb a b then strip_prefix p' s' else None
  | String _ _, EmptyString => None
  end.

(** [p in s] on strings. *)
Fixpoint contains (p s : string) : bool :=
  match strip_prefix p s with
  | Some _ => true
  | None =>
      match s with
      | EmptyString => false
      | String _ s' => contains p s'
      end
  end.

(** The encodings of the decimal digits that a list of code points
    starts with. *)
Fixpoint take_decimals (cs : list (option N * string)) : string :=
  match cs with
  | (Some cp, enc) :: cs' =>
      match decimal_value cp with
      | Some _ => enc +:+ take_decimals cs'
      | None => EmptyString
      end
  | _ => EmptyString
  end.

(** The longest run of [\d] that [s] starts with. *)
Definition leading_digits (s : string) : string :=
  take_decimals (code_points s).

(** [re.match(r'item/(\d+)', s)]: group 1 of a match at the start of [s]. *)
Definition match_item_id (s : string) : option string :=
  rest ← strip_prefix "item/" s;
  match leading_digits rest with
  | EmptyString => None
  | ds => Some ds
  end.

(** [re.search(r'item/(\d+)', s)]: group 1 of the leftmost match.  The
    pattern starts with an ASCII letter, which in UTF-8 is never part of
    the encoding of another code point, so the positions tried are those
    of the bytes. *)
Fixpoint search_item_id (s : string) : option string :=
  match match_item_id s with
  | Some ds => Some ds
  | None =>
      match s with
      | EmptyString => None
      | String _ s' => search_item_id s'
      end
  end.

(** Python truth of an optional string: [None] and [''] are false. *)
Definition truthy (o : option string) : option string :=
  match o with
  | Some EmptyString => None
  | _ => o
  end.

Definition newline : string := String "010"%char EmptyString.

(** ** Broadcasting (bot.py 380-445; bot_api.py 244-304 is the same code
    under the names [send_deal_to_chat] and [send_deals_to_all]) *)

(** bot.py 391-394: the text of a deal; [None] is the [KeyError] of a
    record without ['title'] or ['affiliate_link']. *)
Definition deal_message (deal : LinkRecord) : option string :=
  title ← deal !! "title";
  link ← deal !! "affiliate_link";
  Some ("🔥 " +:+ title +:+ newline +:+ newline
        +:+ "🛒 קישור למוצר: " +:+ link).

Section Broadcast.
Context (env : Env).

(** [bot.send_message(chat_id=..., text=...)]: the message is recorded
    in [sent] when Telegram accepts it; [false] when the call raises. *)
Definition send_message (chat : Z) (text : string) : M bool :=
  n ← tick;
  if send_message_ok env n
  then modify (add_sent (chat, text));; mret true
  else mret false.

(** [send_real_deal_to_chat], bot.py 380-401. *)
Definition send_real_deal_to_chat (chat : Z) (title : string) : M unit :=
  popped ← dequeue_front env;
  match popped with
  | None => mret tt
  | Some deal =>
      match deal_message deal with
      | None => logger (ErrorSendingRealDeal title)
      | Some text =>
          ok ← send_message chat text;
          if ok : bool then logger (SentRealDeal title chat)
          else logger (ErrorSendingRealDeal title)
      end
  end.

(** [send_real_deals_to_all], bot.py 408-411. *)
Fixpoint send_real_deals_to_all (chats : list (Z * string)) : M unit :=
  match chats with
  | [] => mret tt
  | (chat, title) :: chats' =>
      send_real_deal_to_chat chat title;;
      send_real_deals_to_all chats'
  end.

(** [load_chats], bot.py 70-79: the registry in document order. *)
Definition load_chats : M (list (string * string)) :=
  f ← gets chats_file;
  match f with
  | Missing => mret []
  | Stored doc => mret doc
  | Unreadable => logger ErrorLoadingChats;; mret []
  end.

(** [get_chats], bot.py 98-101; [None] when [int(chat_id)] raises.  The
    keys that the bot files are [str(chat.id)], which read back as
    different integers for different chats, so each key gives one entry
    of the result, in document order.  (Keys written by hand that read as
    the same integer, as ['1'] and ['01'] do, are one entry of the Python
    dictionary and are kept as two here.) *)
Definition get_chats : M (option (list (Z * string))) :=
  chats ← load_chats;
  mret (mapM (fun '(key, title) => id ← py_int key; Some (id, title)) chats).

(** [handle_publish_command], bot.py 413-432. *)
Definition handle_publish_command (u : Update) : M unit :=
  if is_private (chat_type u) then
    chats ← get_chats;
    match chats with
    | None => logger ErrorSendingToAllGroups;; reply_text PublishError
    | Some [] => reply_text NoActiveGroups
    | Some chats => send_real_deals_to_all chats;; reply_text SentToAllGroups
    end
  else send_real_deal_to_chat (chat_id u) (chat_title u).

(** [scheduled_deals], bot.py 434-445. *)
Definition scheduled_deals : M unit :=
  chats ← get_chats;
  match chats with
  | None => logger ErrorInScheduledDeals
  | Some [] => logger NoChatsForScheduledDeals
  | Some chats => send_real_deals_to_all chats;; logger ScheduledDealsSent
  end.
End Broadcast.

(** ** Authoring commands *)

Section Authoring.
Context (env : Env).

(** [handle_list_links], bot.py 330-348.  The listing is built with
    [link['title']] and [link['affiliate_link']]; a record without one
    of them raises out of the handler, which then replies nothing. *)
Definition list_entry (i : nat) (link : LinkRecord) : option string :=
  title ← link !! "title";
  aff ← link !! "affiliate_link";
  Some (pretty i +:+ ". " +:+ title +:+ newline
        +:+ "   קישור שותפים: " +:+ aff +:+ newline +:+ newline).

Fixpoint list_entries (i : nat) (q : list LinkRecord) : option string :=
  match q with
  | [] => Some ""
  | link :: q' =>
      e ← list_entry i link;
      rest ← list_entries (S i) q';
      Some (e +:+ rest)
  end.

Definition handle_list_links (u : Update) : M unit :=
  if negb (is_private (chat_type u)) then reply_text PrivateOnly
  else
    q ← gets link_queue;
    match q with
    | [] => reply_text NoStoredLinks
    | _ =>
        match list_entries 1 q with
        | Some body =>
            reply_text (StoredLinks ("📋 רשימת הקישורים השמורים:" +:+ newline
                                     +:+ newline +:+ body))
        | None => mret tt
        end
    end.

(** [handle_clear_links], bot.py 350-359. *)
Definition handle_clear_links (u : Update) : M unit :=
  if negb (is_private (chat_type u)) then reply_text PrivateOnly
  else clear env;; reply_text AllLinksDeleted.

(** bot.py 311-316: the argument of [link.update]. *)
Definition update_fields (title price original_price discount : string)
  : LinkRecord :=
  {[ "title" := title; "price" := price;
     "original_price" := original_price; "discount" := discount ]}.

(** [dict.update]: the keys of [new] are written over [old]. *)
Definition dict_update (new old : LinkRecord) : LinkRecord := new ∪ old.

(** bot.py 310-317: [link = link_queue[index]; link.update(fields);
    save_links()], for an index already checked to be in range. *)
Definition update_at (index : nat) (fields : LinkRecord) : M unit :=
  q ← gets link_queue;
  modify (set_link_queue (alter (dict_update fields) index q));;
  save_links env.

(** [handle_update_link], bot.py 282-328.  The pattern on [args] is the
    test [len(context.args) < 5]; a failing [int()] lands in the
    [except] clause. *)
Definition handle_update_link (u : Update) : M unit :=
  if negb (is_private (chat_type u)) then reply_text PrivateOnly
  else
    match args u with
    | a0 :: a1 :: a2 :: a3 :: a4 :: _ =>
        match py_int a0 with
        | None => logger ErrorUpdatingLink;; reply_text UpdateLinkError
        | Some position =>
            let index := (position - 1)%Z in
            q ← gets link_queue;
            if (index <? 0)%Z || (index >=? Z.of_nat (length q))%Z
            then reply_text InvalidLinkNumber
            else
              let title := a1 in
              let price := "₪" +:+ a2 in
              let original_price := "₪" +:+ a3 in
              let discount := a4 +:+ "%" in
              update_at (Z.to_nat index)
                (update_fields title price original_price discount);;
              reply_text (LinkUpdated title price original_price discount)
        end
    | _ => reply_text UpdateLinkUsage
    end.
End Authoring.

(** *** [bot.py]: the scraping variant *)

Module Bot.
Section Handlers.
Context (env : Env).

(** [extract_product_id], bot.py 103-140. *)
Definition extract_product_id (url : string) : M (option string) :=
  if contains "aliexpress.com/item/" url then mret (search_item_id url)
  else
    n ← tick;
    match follow_redirects env n url with
    | None => logger ErrorExtractingProductId;; mret None
    | Some (status, final_url) =>
        if bool_decide (status ≠ 200%Z)
        then logger (RedirectFailed status);; mret None
        else
          logger (FinalUrlAfterRedirects final_url);;
          mret (search_item_id final_url)
    end.

(** [fetch_product_details], bot.py 142-199: the title scraped from
    the page. *)
Definition fetch_product_details (url : string) : M (option string) :=
  n ← tick;
  mret (product_title env n url).

(** [handle_add_link], bot.py 226-280.  The two lookups catch their own
    exceptions, so nothing in the [try] block raises here and the
    [except] clause is not reached. *)
Definition handle_add_link (u : Update) : M unit :=
  if negb (is_private (chat_type u)) then reply_text PrivateOnly
  else
    match args u with
    | [] => reply_text AddLinkUsage
    | url :: _ =>
        reply_text LookingUpProductId;;
        product_id ← extract_product_id url;
        match truthy product_id with
        | None => reply_text ProductIdNotFound
        | Some product_id =>
            reply_text LookingUpProductDetails;;
            product_details ← fetch_product_details url;
            match product_details with
            | None => reply_text ProductDetailsNotFound
            | Some title =>
                enqueue env {[ "title" := title;
                               "product_id" := product_id;
                               "url" := url;
                               "affiliate_link" := url ]};;
                reply_text (LinkAdded title url)
            end
        end
    end.
End Handlers.
End Bot.

(** *** [bot_api.py]: the vendor-API variant *)

Module BotApi.
Section Handlers.
Context (env : Env).

(** [extract_product_id], bot_api.py 103-113. *)
Definition extract_product_id (url : string) : M (option string) :=
  mret (search_item_id url).

(** [fetch_product_details], bot_api.py 115-132. *)
Definition fetch_product_details (url : string) : M (option string) :=
  n ← tick;
  mret (product_title env n url).

(** [generate_affiliate_link], bot_api.py 134-147. *)
Definition generate_affiliate_link (url : string) : M (option string) :=
  n ← tick;
  mret (promotion_link env n url).

(** [handle_add_link], bot_api.py 149-211; as in [bot.py], with the
    affiliate link asked from the API before the record is built. *)
Definition handle_add_link (u : Update) : M unit :=
  if negb (is_private (chat_type u)) then reply_text PrivateOnly
  else
    match args u with
    | [] => reply_text AddLinkUsage
    | url :: _ =>
        reply_text LookingUpProductId;;
        product_id ← extract_product_id url;
        match truthy product_id with
        | None => reply_text ProductIdNotFound
        | Some product_id =>
            reply_text LookingUpProductDetails;;
            product_details ← fetch_product_details url;
            match product_details with
            | None => reply_text ProductDetailsNotFound
            | Some title =>
                reply_text GeneratingAffiliateLink;;
                affiliate_link ← generate_affiliate_link url;
                match truthy affiliate_link with
                | None => reply_text AffiliateLinkNotGenerated
                | Some affiliate_link =>
                    enqueue env {[ "title" := title;
                                   "product_id" := product_id;
                                   "url" := url;
                                   "affiliate_link" := affiliate_link ]};;
                    reply_text (LinkAdded title affiliate_link)
                end
            end
        end
    end.
End Handlers.
End BotApi.

(** ** Drivers used to state the queue laws *)

Section Drivers.
Context (env : Env).

(** A run of [enqueue] calls, in the order of the list. *)
Fixpoint enqueue_all (rs : list LinkRecord) : M unit :=
  match rs with
  | [] => mret tt
  | r :: rs' => enqueue env r;; enqueue_all rs'
  end.

(** [k] calls of [dequeue_front], collecting what each returns. *)
Fixpoint dequeue_many (k : nat) : M (list (option LinkRecord)) :=
  match k with
  | O => mret []
  | S k' =>
      r ← dequeue_front env;
      rs ← dequeue_many k';
      mret (r :: rs)
  end.
End Drivers.

(** The allocation of a broadcast pass as section 4.3 of the
    specification words it: the chats are taken in registry order, each
    takes the next link of the queue, and the chats left when the queue
    runs out take nothing.  A link without the two displayed fields
    cannot be formatted and produces no message. *)
Definition pass_allocation (chats : list (Z * string)) (q : list LinkRecord)
  : list (Z * string) :=
  omap (fun '(chat, deal) => text ← deal_message deal; Some (chat.1, text))
       (zip chats q).

(** ** Outcomes of the authoring commands *)

(** The command changed neither the queue nor the persisted document and
    its last reply was [reason]. *)
Definition rejected (w w' : World) (reason : Reply) : Prop :=
  link_queue w' = link_queue w
  ∧ links_file w' = links_file w
  ∧ last (replies w') = Some reason.

(** The command put [r] at the tail of the queue and its last reply was
    [confirmation]. *)
Definition appended (w w' : World) (r : LinkRecord) (confirmation : Reply)
  : Prop :=
  link_queue w' = link_queue w ++ [r]
  ∧ last (replies w') = Some confirmation.

(** The replies that report a failure of the resolver. *)
Definition is_resolution_error (r : Reply) : bool :=
  match r with
  | ProductIdNotFound | ProductDetailsNotFound | AffiliateLinkNotGenerated =>
      true
  | _ => false
  end.

(** What the outside world must have answered for [/addlink url] to
    resolve to a product id, a title and an affiliate link, in [bot.py]
    and in [bot_api.py]. *)
Definition scraping_resolved (env : Env) (url product_id title aff : string)
  : Prop :=
  aff = url
  ∧ product_id ≠ ""
  ∧ (search_item_id url = Some product_id
     ∨ ∃ n final_url,
         follow_redirects env n url = Some (200%Z, final_url)
         ∧ search_item_id final_url = Some product_id)
  ∧ ∃ n, product_title env n url = Some title.

Definition api_resolved (env : Env) (url product_id title aff : string)
  : Prop :=
  search_item_id url = Some product_id
  ∧ product_id ≠ ""
  ∧ (∃ n, product_title env n url = Some title)
  ∧ (∃ n, promotion_link env n url = Some aff)
  ∧ aff ≠ "".

(** The three ways [/addlink] can end: refused outside a private chat,
    the usage text when the URL is missing, and otherwise either a
    resolution error that leaves the queue alone or the resolved record
    appended at the tail. *)
Definition add_link_outcome
    (resolved : string -> string -> string -> string -> Prop)
    (u : Update) (w w' : World) : Prop :=
  match chat_type u, args u with
  | private, [] => w' = add_reply AddLinkUsage w
  | private, url :: _ =>
      (∃ reason, is_resolution_error reason = true ∧ rejected w w' reason)
      ∨ (∃ product_id title aff,
           resolved url product_id title aff
           ∧ appended w w'
               {[ "title" := title; "product_id" := product_id;
                  "url" := url; "affiliate_link" := aff ]}
               (LinkAdded title aff))
  | _, _ => w' = add_reply PrivateOnly w
  end.

(** ** Concrete worlds used in the examples *)

(** An outside world where every write, every message and every lookup
    succeeds. *)
Definition steady : Env :=
  mkEnv (fun _ => Written) (fun _ => true) (fun _ _ => None)
        (fun _ _ => Some "Gadget")
        (fun _ _ => Some "https://s.click.aliexpress.com/e/_abc").

(** An outside world where [open(LINKS_FILE, 'w')] always raises. *)
Definition read_only_disk : Env :=
  mkEnv (fun _ => OpenFailed) (fun _ => true) (fun _ _ => None)
        (fun _ _ => Some "Gadget")
        (fun _ _ => Some "https://s.click.aliexpress.com/e/_abc").

(** An outside world where Telegram refuses the first message of a pass
    (external call number 1, after the write numbered 0) and accepts the
    others. *)
Definition first_send_refused : Env :=
  mkEnv (fun _ => Written) (fun n => negb (n =? 1)%nat) (fun _ _ => None)
        (fun _ _ => Some "Gadget")
        (fun _ _ => Some "https://s.click.aliexpress.com/e/_abc").

(** An outside world where the resolver finds nothing. *)
Definition resolver_down : Env :=
  mkEnv (fun _ => Written) (fun _ => true) (fun _ _ => None)
        (fun _ _ => None) (fun _ _ => None).

Definition deal_A : LinkRecord :=
  {[ "title" := "A"; "product_id" := "1001";
     "url" := "https://www.aliexpress.com/item/1001.html";
     "affiliate_link" := "https://www.aliexpress.com/item/1001.html" ]}.

Definition deal_B : LinkRecord :=
  {[ "title" := "B"; "product_id" := "1002";
     "url" := "https://www.aliexpress.com/item/1002.html";
     "affiliate_link" := "https://www.aliexpress.com/item/1002.html" ]}.

Definition registry_G1_G2 : File (list (string * string)) :=
  Stored [("1", "G1"); ("2", "G2")].

(** The bot right after start-up with the given queue already on disk. *)
Definition world_with (q : list LinkRecord) : World :=
  mkWorld q (Stored q) registry_G1_G2 [] [] [] 0.

(** The bot right after a first start: no document on disk yet. *)
Definition fresh_world : World :=
  mkWorld [] Missing Missing [] [] [] 0.

Definition from_private (arguments : list string) : Update :=
  mkUpdate private 500 "" arguments.

Definition from_group (arguments : list string) : Update :=
  mkUpdate group (-1007) "G7" arguments.

(** ** Registering chats (bot.py 81-96) *)

Definition set_chats_file (f : File (list (string * string))) (w : World)
  : World :=
  mkWorld (link_queue w) (links_file w) f (sent w) (replies w) (log w)
          (clock w).

(** [chats[key] = value] on a [dict], kept here in insertion order: the
    value of a key already present is replaced where it stands, a new key
    goes last. *)
Fixpoint dict_set (key value : string) (d : list (string * string))
  : list (string * string) :=
  match d with
  | [] => [(key, value)]
  | (k, v) :: d' =>
      if decide (k = key) then (key, value) :: d'
      else (k, v) :: dict_set key value d'
  end.

(** [chats.get(key)]. *)
Fixpoint dict_get (key : string) (d : list (string * string))
  : option string :=
  match d with
  | [] => None
  | (k, v) :: d' => if decide (k = key) then Some v else dict_get key d'
  end.

(** The lines that the registry code hands to [logger]; the functions
    below return the lines they emit. *)
Inductive RegistryLog : Type :=
  | ErrorSavingChats
  | AddedNewChat (title : string) (id : Z).

Section Registry.
Context (env : Env).

(** [save_chats], bot.py 81-87; the outcome of the write is read from the
    environment like that of [save_links]. *)
Definition save_chats (chats : list (string * string))
  : M (list RegistryLog) :=
  n ← tick;
  match fs_write env n with
  | Written => modify (set_chats_file (Stored chats));; mret []
  | OpenFailed => mret [ErrorSavingChats]
  | DumpFailed => modify (set_chats_file Unreadable);; mret [ErrorSavingChats]
  end.

(** [handle_new_chat_members], bot.py 89-96; [pretty] is [str] on
    integers. *)
Definition handle_new_chat_members (u : Update) : M (list RegistryLog) :=
  match chat_type u with
  | group | supergroup =>
      chats ← load_chats;
      saved ← save_chats (dict_set (pretty (chat_id u)) (chat_title u) chats);
      mret (saved ++ [AddedNewChat (chat_title u) (chat_id u)])
  | _ => mret []
  end.
End Registry.

(** [str.isascii], short of the character 127: every byte is below 127. *)
Fixpoint is_plain (s : string) : bool :=
  match s with
  | EmptyString => true
  | String a s' => (N_of_ascii a <? 127)%N && is_plain s'
  end.

(** [str.isdecimal] on the code points of [s]: each is a decimal digit. *)
Definition all_digits (s : string) : bool :=
  forallb (fun c : option N * string =>
             match c.1 with
             | Some cp => bool_decide (is_Some (decimal_value cp))
             | None => false
             end)
          (code_points s).


(** ** Basic facts about the monadic operations *)

Ltac run :=
  unfold exec, eval, mbind, M_bind, mret, M_ret, logger, reply_text,
    gets, modify, tick in *; simpl in *.

Lemma exec_bind {A B} (m : M A) (f : A -> M B) w :
  exec (m ≫= f) w = exec (f (eval m w)) (exec m w).
Proof. unfold exec, eval, mbind, M_bind. by destruct (m w). Qed.

Lemma eval_bind {A B} (m : M A) (f : A -> M B) w :
  eval (m ≫= f) w = eval (f (eval m w)) (exec m w).
Proof. unfold exec, eval, mbind, M_bind. by destruct (m w). Qed.

Lemma truthy_nonempty s : s ≠ "" -> truthy (Some s) = Some s.
Proof. by destruct s. Qed.


Lemma search_item_id_unfold s :
  search_item_id s
  = match match_item_id s with
    | Some ds => Some ds
    | None =>
        match s with
        | EmptyString => None
        | String _ s' => search_item_id s'
        end
    end.
Proof. by destruct s. Qed.

Lemma match_item_id_nonempty s d : match_item_id s = Some d -> d ≠ "".
Proof.
  unfold match_item_id. destruct (strip_prefix "item/" s) as [rest|]; [|done].
  simpl. by destruct (leading_digits rest); intros [= <-].
Qed.

Lemma search_item_id_nonempty s d : search_item_id s = Some d -> d ≠ "".
Proof.
  induction s as [|a s IH]; rewrite search_item_id_unfold.
  - destruct (match_item_id "") eqn:Hm; [|done].
    intros [= <-]. by apply (match_item_id_nonempty "").
  - destruct (match_item_id (String a s)) eqn:Hm; [|exact IH].
    intros [= <-]. by apply (match_item_id_nonempty (String a s)).
Qed.

(** [int] on digits and blanks that are not ASCII: an Arabic-Indic
    digit is a digit, digits of two scripts mix, a no-break space
    before the number and an em space after it are blank, an underscore may separate two digits;
    the separators U+001C to U+001F are not blank for [int], and a
    superscript two is no decimal digit. *)
Lemma py_int_beyond_ascii :
  py_int "٢" = Some 2%Z
  ∧ py_int "1٢3" = Some 123%Z
  ∧ py_int " 5 " = Some 5%Z
  ∧ py_int "٢_٣" = Some 23%Z
  ∧ py_int "-٥" = Some (-5)%Z
  ∧ py_int (String (ascii_of_nat 28) "5") = None
  ∧ py_int "²" = None
  ∧ py_int "" = None.
Proof. by vm_compute. Qed.

(** The handlers on commands written with such digits: a position
    beyond the queue is out of range, a position within it is updated,
    the product identifier is the whole run of decimal digits, and a
    registry key is read as [int] reads it. *)
Lemma handlers_beyond_ascii :
  replies (exec (handle_update_link steady
                   (from_private ["٥"; "Gadget"; "49.99"; "199.99"; "75"]))
             (world_with [deal_A; deal_B]))
  = [InvalidLinkNumber]
  ∧ replies (exec (handle_update_link steady
                     (from_private ["٢"; "Bee"; "49.99"; "199.99"; "75"]))
               (world_with [deal_A; deal_B]))
    = [LinkUpdated "Bee" "₪49.99" "₪199.99" "75%"]
  ∧ eval (BotApi.extract_product_id
            "https://www.aliexpress.com/item/12٣4.html") fresh_world
    = Some "12٣4"
  ∧ eval (Bot.extract_product_id steady
            "https://www.aliexpress.com/item/١٢٣.html") fresh_world
    = Some "١٢٣"
  ∧ eval get_chats
      (mkWorld [] (Stored []) (Stored [(" 5", "G5"); ("٧", "G7")])
         [] [] [] 0)
    = Some [(5%Z, "G5"); (7%Z, "G7")].
Proof. by vm_compute. Qed.

Section Properties.
Context (env : Env).

Lemma save_links_frame w :
  let w' := exec (save_links env) w in
  link_queue w' = link_queue w ∧ chats_file w' = chats_file w ∧
  sent w' = sent w ∧ replies w' = replies w ∧ clock w' = S (clock w).
Proof. unfold save_links. run. destruct (fs_write env (clock w)); done. Qed.

Lemma save_links_file w :
  links_file (exec (save_links env) w) =
    match fs_write env (clock w) with
    | Written => Stored (link_queue w)
    | OpenFailed => links_file w
    | DumpFailed => Unreadable
    end.
Proof. unfold save_links. run. destruct (fs_write env (clock w)); done. Qed.

Lemma enqueue_queue r w :
  link_queue (exec (enqueue env r) w) = link_queue w ++ [r].
Proof.
  unfold enqueue, save_links. run.
  destruct (fs_write env (clock w)); done.
Qed.

Lemma enqueue_all_queue rs w :
  link_queue (exec (enqueue_all env rs) w) = link_queue w ++ rs.
Proof.
  revert w. induction rs as [|r rs IH]; intros w.
  - simpl. run. by rewrite app_nil_r.
  - simpl. rewrite exec_bind, IH, enqueue_queue. by rewrite <- app_assoc.
Qed.
Lemma dequeue_front_nil w :
  link_queue w = [] ->
  dequeue_front env w = (None, add_log NoLinksAvailable w).
Proof. intros Hq. unfold dequeue_front. run. by rewrite Hq. Qed.

Lemma dequeue_front_cons w deal rest :
  link_queue w = deal :: rest ->
  dequeue_front env w =
    (Some deal, exec (save_links env) (set_link_queue rest w)).
Proof.
  intros Hq. unfold dequeue_front. run. rewrite Hq.
  by destruct (save_links env (set_link_queue rest w)).
Qed.

Lemma exec_dequeue_front_nil w :
  link_queue w = [] ->
  exec (dequeue_front env) w = add_log NoLinksAvailable w.
Proof. intros Hq. unfold exec. by rewrite (dequeue_front_nil w Hq). Qed.

Lemma exec_dequeue_front_cons w deal rest :
  link_queue w = deal :: rest ->
  exec (dequeue_front env) w
  = exec (save_links env) (set_link_queue rest w).
Proof.
  intros Hq. unfold exec at 1. by rewrite (dequeue_front_cons w deal rest Hq).
Qed.

Lemma dequeue_front_queue w :
  link_queue (exec (dequeue_front env) w) = drop 1 (link_queue w).
Proof.
  destruct (link_queue w) as [|deal rest] eqn:Hq.
  - unfold exec. rewrite (dequeue_front_nil w Hq). simpl. by rewrite Hq.
  - unfold exec at 1. rewrite (dequeue_front_cons w deal rest Hq). simpl.
    by destruct (save_links_frame (set_link_queue rest w)) as [-> _].
Qed.

Lemma dequeue_front_eval w :
  eval (dequeue_front env) w = head (link_queue w).
Proof.
  destruct (link_queue w) as [|deal rest] eqn:Hq; unfold eval.
  - by rewrite (dequeue_front_nil w Hq).
  - by rewrite (dequeue_front_cons w deal rest Hq).
Qed.

Lemma dequeue_many_spec k w :
  eval (dequeue_many env k) w =
    (Some <$> take k (link_queue w))
      ++ replicate (k - length (link_queue w)) None
  ∧ link_queue (exec (dequeue_many env k) w) = drop k (link_queue w).
Proof.
  revert w. induction k as [|k IH]; intros w.
  - simpl. run. by rewrite drop_0.
  - simpl. rewrite eval_bind, eval_bind, exec_bind, exec_bind.
    destruct (IH (exec (dequeue_front env) w)) as [IHe IHq].
    rewrite dequeue_front_eval. rewrite dequeue_front_queue in IHe, IHq.
    split.
    + change (eval (mret (head (link_queue w)
                          :: eval (dequeue_many env k)
                                  (exec (dequeue_front env) w))) _)
        with (head (link_queue w)
              :: eval (dequeue_many env k) (exec (dequeue_front env) w)).
      rewrite IHe. destruct (link_queue w) as [|deal rest]; simpl.
      * by rewrite take_nil, Nat.sub_0_r.
      * by rewrite ?drop_0.
    + change (exec (mret (M := M) ?x) ?y) with y.
      rewrite IHq. by destruct (link_queue w); simpl; rewrite ?drop_nil, ?drop_0.
Qed.

(** C1.  The link queue is first in, first out.  [enqueue] appends at
    the tail; [dequeue_front] answers the head and leaves the rest.
    Hence, whatever the outside world does, after a run of [enqueue]
    calls the first [k] calls of [dequeue_front] return the queued
    records in insertion order (the old ones first, then the new ones
    in the order they were enqueued), any further call returns nothing,
    and the queue is left with the records not yet returned. *)
Theorem link_queue_fifo (w : World) (rs : list LinkRecord) (k : nat) :
  let w1 := exec (enqueue_all env rs) w in
  let w2 := exec (dequeue_many env k) w1 in
  (∀ r w0, link_queue (exec (enqueue env r) w0) = link_queue w0 ++ [r])
  ∧ (∀ w0, eval (dequeue_front env) w0 = head (link_queue w0)
           ∧ link_queue (exec (dequeue_front env) w0)
             = tail (link_queue w0))
  ∧ eval (dequeue_many env k) w1 =
      (Some <$> take k (link_queue w ++ rs))
        ++ replicate (k - length (link_queue w ++ rs)) None
  ∧ link_queue w2 = drop k (link_queue w ++ rs)
  ∧ eval (dequeue_many env (length (link_queue w ++ rs))) w1 =
      Some <$> (link_queue w ++ rs).
Proof.
  intros w1 w2.
  assert (Hq : link_queue w1 = link_queue w ++ rs)
    by apply enqueue_all_queue.
  split; [apply enqueue_queue|].
  split.
  { intros w0. split; [apply dequeue_front_eval|].
    rewrite dequeue_front_queue. by destruct (link_queue w0). }
  destruct (dequeue_many_spec k w1) as [He Hd].
  rewrite Hq in He, Hd. split; [exact He|]. split; [exact Hd|].
  destruct (dequeue_many_spec (length (link_queue w ++ rs)) w1) as [He' _].
  rewrite Hq in He'. rewrite He', firstn_all, Nat.sub_diag. simpl.
  by rewrite app_nil_r.
Qed.
(** C7.  [dequeue_front] on an empty queue returns nothing (the
    [Empty] outcome, logged as a warning) and changes neither the
    queue, nor the persisted document, nor anything else but the log;
    on a non-empty queue it returns the head record, leaves the rest in
    the queue, and calls [save_links] on the shortened queue, which
    stores it in the document when the write goes through. *)
Theorem dequeue_front_empty_or_head (w : World) :
  let w' := exec (dequeue_front env) w in
  match link_queue w with
  | [] =>
      eval (dequeue_front env) w = None
      ∧ w' = add_log NoLinksAvailable w
      ∧ link_queue w' = [] ∧ links_file w' = links_file w
  | deal :: rest =>
      eval (dequeue_front env) w = Some deal
      ∧ link_queue w' = rest
      ∧ w' = exec (save_links env) (set_link_queue rest w)
      ∧ links_file w' =
          match fs_write env (clock w) with
          | Written => Stored rest
          | OpenFailed => links_file w
          | DumpFailed => Unreadable
          end
  end.
Proof.
  intros w'. subst w'. destruct (link_queue w) as [|deal rest] eqn:Hq.
  - unfold eval, exec. rewrite (dequeue_front_nil w Hq). simpl.
    by rewrite Hq.
  - unfold eval, exec at 1 2 4. rewrite (dequeue_front_cons w deal rest Hq).
    simpl. split; [done|]. split.
    { by destruct (save_links_frame (set_link_queue rest w)) as [-> _]. }
    split; [done|]. by rewrite save_links_file.
Qed.
(** *** One chat *)

Lemma send_real_deal_nil w chat title :
  link_queue w = [] ->
  exec (send_real_deal_to_chat env chat title) w
  = add_log NoLinksAvailable w.
Proof.
  intros Hq. unfold send_real_deal_to_chat. rewrite exec_bind.
  unfold eval, exec. by rewrite (dequeue_front_nil w Hq).
Qed.

Lemma send_real_deal_cons w chat title deal rest :
  link_queue w = deal :: rest ->
  let w1 := exec (save_links env) (set_link_queue rest w) in
  exec (send_real_deal_to_chat env chat title) w =
    match deal_message deal with
    | None => add_log (ErrorSendingRealDeal title) w1
    | Some text =>
        if send_message_ok env (clock w1)
        then add_log (SentRealDeal title chat)
               (add_sent (chat, text) (set_clock (S (clock w1)) w1))
        else add_log (ErrorSendingRealDeal title)
               (set_clock (S (clock w1)) w1)
    end.
Proof.
  intros Hq w1. unfold send_real_deal_to_chat. rewrite exec_bind.
  unfold eval, exec at 2. rewrite (dequeue_front_cons w deal rest Hq).
  simpl. fold w1. destruct (deal_message deal) as [text|]; [|done].
  unfold send_message. run.
  by destruct (send_message_ok env (clock w1)).
Qed.

Lemma send_real_deal_queue w chat title :
  link_queue (exec (send_real_deal_to_chat env chat title) w)
  = drop 1 (link_queue w).
Proof.
  destruct (link_queue w) as [|deal rest] eqn:Hq.
  - by rewrite (send_real_deal_nil w chat title Hq).
  - rewrite (send_real_deal_cons w chat title deal rest Hq).
    destruct (save_links_frame (set_link_queue rest w)) as [Hq' _].
    destruct (deal_message deal); [|done].
    by destruct (send_message_ok env _).
Qed.

Lemma send_real_deal_links_file w chat title :
  links_file (exec (send_real_deal_to_chat env chat title) w)
  = links_file (exec (dequeue_front env) w).
Proof.
  destruct (link_queue w) as [|deal rest] eqn:Hq.
  - by rewrite (send_real_deal_nil w chat title Hq),
      (exec_dequeue_front_nil w Hq).
  - rewrite (send_real_deal_cons w chat title deal rest Hq),
      (exec_dequeue_front_cons w deal rest Hq).
    destruct (deal_message deal); [|done].
    by destruct (send_message_ok env _).
Qed.

Lemma send_real_deal_sent w chat title :
  ∃ delivered,
    sent (exec (send_real_deal_to_chat env chat title) w)
    = sent w ++ delivered
    ∧ delivered `sublist_of`
        pass_allocation [(chat, title)] (take 1 (link_queue w))
    ∧ ((∀ n, send_message_ok env n = true) ->
       delivered = pass_allocation [(chat, title)] (take 1 (link_queue w))).
Proof.
  destruct (link_queue w) as [|deal rest] eqn:Hq.
  - rewrite (send_real_deal_nil w chat title Hq). exists []. simpl.
    by rewrite app_nil_r.
  - rewrite (send_real_deal_cons w chat title deal rest Hq).
    destruct (save_links_frame (set_link_queue rest w))
      as (_ & _ & Hs & _).
    unfold pass_allocation. simpl.
    destruct (deal_message deal) as [text|]; simpl.
    + destruct (send_message_ok env _) eqn:Hok; simpl.
      * exists [(chat, text)]. by rewrite Hs.
      * exists []. rewrite Hs, app_nil_r. split; [done|].
        split; [apply sublist_nil_l|]. intros Hall.
        by rewrite Hall in Hok.
    + exists []. by rewrite Hs, app_nil_r.
Qed.

(** *** A whole pass *)

Lemma pass_allocation_cons chat title chats (q : list LinkRecord) :
  pass_allocation ((chat, title) :: chats) q
  = pass_allocation [(chat, title)] (take 1 q)
    ++ pass_allocation chats (drop 1 q).
Proof.
  unfold pass_allocation. destruct q as [|deal rest]; simpl.
  - by destruct chats.
  - by destruct (deal_message deal).
Qed.

Lemma send_real_deals_to_all_cons w chat title chats :
  exec (send_real_deals_to_all env ((chat, title) :: chats)) w
  = exec (send_real_deals_to_all env chats)
      (exec (send_real_deal_to_chat env chat title) w).
Proof. simpl. by rewrite exec_bind. Qed.

Lemma pass_queue chats w :
  link_queue (exec (send_real_deals_to_all env chats) w)
  = drop (length chats) (link_queue w).
Proof.
  revert w. induction chats as [|[chat title] chats IH]; intros w.
  - by rewrite drop_0.
  - rewrite send_real_deals_to_all_cons, IH, send_real_deal_queue.
    rewrite drop_drop. f_equal.
Qed.

Lemma pass_sent chats w :
  ∃ delivered,
    sent (exec (send_real_deals_to_all env chats) w) = sent w ++ delivered
    ∧ delivered `sublist_of` pass_allocation chats (link_queue w)
    ∧ ((∀ n, send_message_ok env n = true) ->
       delivered = pass_allocation chats (link_queue w)).
Proof.
  revert w. induction chats as [|[chat title] chats IH]; intros w.
  - exists []. simpl. by rewrite app_nil_r.
  - rewrite send_real_deals_to_all_cons.
    destruct (send_real_deal_sent w chat title) as (d1 & Hs1 & Hsub1 & Hall1).
    destruct (IH (exec (send_real_deal_to_chat env chat title) w))
      as (d2 & Hs2 & Hsub2 & Hall2).
    rewrite send_real_deal_queue in Hsub2, Hall2.
    exists (d1 ++ d2). rewrite Hs2, Hs1, pass_allocation_cons.
    split; [by rewrite app_assoc|].
    split; [by apply sublist_app|].
    intros Hall. by rewrite Hall1, Hall2.
Qed.
Lemma pass_app chats1 chats2 w :
  exec (send_real_deals_to_all env (chats1 ++ chats2)) w
  = exec (send_real_deals_to_all env chats2)
      (exec (send_real_deals_to_all env chats1) w).
Proof.
  revert w. induction chats1 as [|[chat title] chats1 IH]; intros w.
  - done.
  - rewrite <- app_comm_cons, !send_real_deals_to_all_cons. apply IH.
Qed.

Lemma pass_on_empty_queue chats w :
  link_queue w = [] ->
  sent (exec (send_real_deals_to_all env chats) w) = sent w
  ∧ link_queue (exec (send_real_deals_to_all env chats) w) = [].
Proof.
  revert w. induction chats as [|[chat title] chats IH]; intros w Hq.
  - done.
  - rewrite send_real_deals_to_all_cons, (send_real_deal_nil w chat title Hq).
    by destruct (IH (add_log NoLinksAvailable w) Hq) as [-> ->].
Qed.

Lemma publish_private_registry u w doc chats :
  chat_type u = private ->
  chats_file w = Stored doc ->
  mapM (fun '(key, title) => id ← py_int key; Some (id, title)) doc
    = Some chats ->
  chats ≠ [] ->
  exec (handle_publish_command env u) w
  = add_reply SentToAllGroups (exec (send_real_deals_to_all env chats) w).
Proof.
  intros Hp Hf Hm Hne. unfold handle_publish_command. rewrite Hp. simpl.
  rewrite exec_bind.
  assert (Hg : get_chats w = (Some chats, w)).
  { unfold get_chats, load_chats. run. rewrite Hf. simpl. by rewrite Hm. }
  unfold eval, exec at 2. rewrite Hg. simpl.
  destruct chats as [|c chats]; [done|]. by rewrite exec_bind.
Qed.

(** C2.  A broadcast pass walks the chats in registry order and takes
    one link from the head of the queue for each, so the queue loses
    one link per chat until it is empty; what is delivered is, in
    order, part of the pairing of the i-th chat with the i-th link (all
    of it when Telegram accepts every message), and the chats that come
    after the queue has run out receive nothing.  In particular, with
    the queue [A] and the registry (1, G1), (2, G2), the pass run by
    [/publish] from a private chat sends A to chat 1, sends nothing to
    chat 2 and leaves the queue empty. *)
Theorem broadcast_pass_one_link_per_chat
    (w : World) (chats : list (Z * string)) :
  let w' := exec (send_real_deals_to_all env chats) w in
  link_queue w' = drop (length chats) (link_queue w)
  ∧ (∃ delivered,
       sent w' = sent w ++ delivered
       ∧ delivered `sublist_of` pass_allocation chats (link_queue w)
       ∧ ((∀ n, send_message_ok env n = true) ->
          delivered = pass_allocation chats (link_queue w)))
  ∧ (∀ later,
       (length (link_queue w) ≤ length chats)%nat ->
       sent (exec (send_real_deals_to_all env (chats ++ later)) w)
       = sent w'
       ∧ link_queue (exec (send_real_deals_to_all env (chats ++ later)) w)
         = [])
  ∧ (∀ u A text,
       chat_type u = private ->
       chats_file w = Stored [("1", "G1"); ("2", "G2")] ->
       link_queue w = [A] ->
       deal_message A = Some text ->
       (∀ n, send_message_ok env n = true) ->
       let w2 := exec (handle_publish_command env u) w in
       sent w2 = sent w ++ [(1%Z, text)] ∧ link_queue w2 = []).
Proof.
  intros w'. subst w'. split; [apply pass_queue|].
  split; [apply pass_sent|]. split.
  - intros later Hlen. rewrite pass_app.
    apply pass_on_empty_queue. rewrite pass_queue.
    by apply drop_ge.
  - intros u A text Hp Hf Hq Hm Hall w2. subst w2.
    rewrite (publish_private_registry u w _ [(1%Z, "G1"); (2%Z, "G2")] Hp Hf);
      [|done|done].
    unfold add_reply. cbn [sent link_queue]. rewrite pass_queue, Hq.
    destruct (pass_sent [(1%Z, "G1"); (2%Z, "G2")] w)
      as (d & Hs & _ & Hd).
    rewrite Hs, (Hd Hall), Hq. unfold pass_allocation. simpl.
    by rewrite Hm.
Qed.
Lemma send_real_deal_failed w chat title deal rest text :
  link_queue w = deal :: rest ->
  deal_message deal = Some text ->
  send_message_ok env (S (clock w)) = false ->
  let ws := exec (save_links env) (set_link_queue rest w) in
  exec (send_real_deal_to_chat env chat title) w
  = add_log (ErrorSendingRealDeal title) (set_clock (S (S (clock w))) ws).
Proof.
  intros Hq Hm Hfail ws.
  rewrite (send_real_deal_cons w chat title deal rest Hq), Hm. fold ws.
  destruct (save_links_frame (set_link_queue rest w)) as (_ & _ & _ & _ & Hc).
  fold ws in Hc. simpl in Hc. by rewrite Hc, Hfail.
Qed.

Lemma send_real_deal_delivered w chat title deal rest text :
  link_queue w = deal :: rest ->
  deal_message deal = Some text ->
  send_message_ok env (S (clock w)) = true ->
  let ws := exec (save_links env) (set_link_queue rest w) in
  exec (send_real_deal_to_chat env chat title) w
  = add_log (SentRealDeal title chat)
      (add_sent (chat, text) (set_clock (S (S (clock w))) ws)).
Proof.
  intros Hq Hm Hok ws.
  rewrite (send_real_deal_cons w chat title deal rest Hq), Hm. fold ws.
  destruct (save_links_frame (set_link_queue rest w)) as (_ & _ & _ & _ & Hc).
  fold ws in Hc. simpl in Hc. by rewrite Hc, Hok.
Qed.

(** C3.  Sending to one chat consumes the head of the queue whether
    or not the delivery succeeds: the queue and the persisted document
    after [send_real_deal_to_chat] are those left by [dequeue_front]
    alone, which has called [save_links] on the shortened queue before
    anything is sent.  When Telegram refuses the message nothing is
    delivered, the error is logged, the link is not put back, and the
    pass goes on with the next chat and the next link. *)
Theorem failed_delivery_is_not_requeued
    (w : World) (chat : Z) (title : string) (chats : list (Z * string)) :
  let w1 := exec (send_real_deal_to_chat env chat title) w in
  let w' := exec (send_real_deals_to_all env ((chat, title) :: chats)) w in
  link_queue w1 = tail (link_queue w)
  ∧ links_file w1 = links_file (exec (dequeue_front env) w)
  ∧ w' = exec (send_real_deals_to_all env chats) w1
  ∧ link_queue w' = drop (length chats) (tail (link_queue w))
  ∧ (∀ deal rest text,
       link_queue w = deal :: rest ->
       deal_message deal = Some text ->
       send_message_ok env (S (clock w)) = false ->
       sent w1 = sent w
       ∧ link_queue w1 = rest
       ∧ links_file w1 =
           match fs_write env (clock w) with
           | Written => Stored rest
           | OpenFailed => links_file w
           | DumpFailed => Unreadable
           end
       ∧ last (log w1) = Some (ErrorSendingRealDeal title))
  ∧ (∀ A B rest textA textB chat2 title2,
       link_queue w = A :: B :: rest ->
       deal_message A = Some textA ->
       deal_message B = Some textB ->
       send_message_ok env (S (clock w)) = false ->
       send_message_ok env (S (S (S (clock w)))) = true ->
       chats = [(chat2, title2)] ->
       sent w' = sent w ++ [(chat2, textB)] ∧ link_queue w' = rest).
Proof.
  intros w1 w'. subst w1 w'.
  split. { rewrite send_real_deal_queue. by destruct (link_queue w). }
  split; [apply send_real_deal_links_file|].
  split; [apply send_real_deals_to_all_cons|].
  split.
  { rewrite pass_queue.
    destruct (link_queue w); simpl; by rewrite ?drop_nil. }
  split.
  - intros deal rest text Hq Hm Hfail.
    rewrite (send_real_deal_failed w chat title deal rest text Hq Hm Hfail).
    destruct (save_links_frame (set_link_queue rest w))
      as (Hq' & _ & Hs & _).
    unfold add_log, set_clock. cbn [sent link_queue links_file log].
    rewrite Hs, Hq', save_links_file. simpl.
    repeat split; try done. apply last_snoc.
  - intros A B rest textA textB chat2 title2 Hq HA HB Hfail Hok ->.
    rewrite send_real_deals_to_all_cons.
    rewrite (send_real_deal_failed w chat title A (B :: rest) textA Hq HA Hfail).
    destruct (save_links_frame (set_link_queue (B :: rest) w))
      as (Hq1 & _ & Hs1 & _).
    set (w1 := add_log _ _).
    assert (Hq1' : link_queue w1 = B :: rest) by (subst w1; apply Hq1).
    assert (Hc1 : clock w1 = S (S (clock w))) by (by subst w1).
    assert (Hs1' : sent w1 = sent w) by (subst w1; apply Hs1).
    clearbody w1.
    rewrite send_real_deals_to_all_cons.
    rewrite (send_real_deal_delivered w1 chat2 title2 B rest textB Hq1' HB);
      [|by rewrite Hc1].
    destruct (save_links_frame (set_link_queue rest w1))
      as (Hq2 & _ & Hs2 & _).
    simpl. rewrite Hs2, Hq2. simpl. by rewrite Hs1'.
Qed.

(** C8.  [/publish] from any chat that is not private serves that chat
    alone: the handler is [send_real_deal_to_chat] on the invoking
    chat, and the registry is not read.  It takes exactly one link, so
    with A and B queued the queue is left with B at its head, and the
    only message that can be delivered is A's, to the invoking chat
    (it is delivered when Telegram accepts it). *)
Theorem publish_from_group_serves_that_chat (u : Update) (w : World) :
  chat_type u ≠ private ->
  let w' := exec (handle_publish_command env u) w in
  w' = exec (send_real_deal_to_chat env (chat_id u) (chat_title u)) w
  ∧ chats_file w' = chats_file w
  ∧ link_queue w' = tail (link_queue w)
  ∧ (∀ A B rest text,
       link_queue w = A :: B :: rest ->
       deal_message A = Some text ->
       link_queue w' = B :: rest
       ∧ (sent w' = sent w ∨ sent w' = sent w ++ [(chat_id u, text)])
       ∧ (send_message_ok env (S (clock w)) = true ->
          sent w' = sent w ++ [(chat_id u, text)])).
Proof.
  intros Hnp w'.
  assert (Hw : w' = exec (send_real_deal_to_chat env (chat_id u)
                            (chat_title u)) w).
  { subst w'. unfold handle_publish_command.
    by destruct (chat_type u). }
  rewrite Hw. clear Hw w'. split; [done|].
  split.
  { destruct (link_queue w) as [|deal rest] eqn:Hq.
    - by rewrite (send_real_deal_nil w _ _ Hq).
    - rewrite (send_real_deal_cons w _ _ deal rest Hq).
      destruct (save_links_frame (set_link_queue rest w)) as (_ & Hc & _).
      destruct (deal_message deal); [|done].
      by destruct (send_message_ok env _). }
  split. { rewrite send_real_deal_queue. by destruct (link_queue w). }
  intros A B rest text Hq Hm.
  split. { by rewrite send_real_deal_queue, Hq. }
  destruct (save_links_frame (set_link_queue (B :: rest) w))
    as (_ & _ & Hs & _).
  split.
  - destruct (send_message_ok env (S (clock w))) eqn:Hok.
    + right.
      rewrite (send_real_deal_delivered w _ _ A (B :: rest) text Hq Hm Hok).
      simpl. by rewrite Hs.
    + left.
      rewrite (send_real_deal_failed w _ _ A (B :: rest) text Hq Hm Hok).
      simpl. by rewrite Hs.
  - intros Hok.
    rewrite (send_real_deal_delivered w _ _ A (B :: rest) text Hq Hm Hok).
    simpl. by rewrite Hs.
Qed.
(** *** Update by position *)

Lemma update_at_queue i fields w :
  link_queue (exec (update_at env i fields) w)
  = alter (dict_update fields) i (link_queue w).
Proof.
  unfold update_at. rewrite !exec_bind.
  by destruct (save_links_frame
                 (exec (modify (set_link_queue
                          (alter (dict_update fields) i
                             (eval (gets link_queue) w))))
                       (exec (gets link_queue) w))) as [-> _].
Qed.

Lemma update_at_replies i fields w :
  replies (exec (update_at env i fields) w) = replies w.
Proof.
  unfold update_at. rewrite !exec_bind.
  by destruct (save_links_frame
                 (exec (modify (set_link_queue
                          (alter (dict_update fields) i
                             (eval (gets link_queue) w))))
                       (exec (gets link_queue) w))) as (_ & _ & _ & -> & _).
Qed.

Lemma range_check_false (position : Z) (n : nat) :
  (1 ≤ position ≤ Z.of_nat n)%Z ->
  ((position - 1 <? 0)%Z || (position - 1 >=? Z.of_nat n)%Z) = false.
Proof.
  intros H. apply orb_false_iff. split; [apply Z.ltb_ge; lia|].
  rewrite Z.geb_leb. apply Z.leb_gt. lia.
Qed.

Lemma range_check_true (position : Z) (n : nat) :
  (position < 1 ∨ position > Z.of_nat n)%Z ->
  ((position - 1 <? 0)%Z || (position - 1 >=? Z.of_nat n)%Z) = true.
Proof.
  intros H. apply orb_true_iff. rewrite Z.geb_leb, Z.ltb_lt, Z.leb_le. lia.
Qed.

Lemma handle_update_link_out_of_range u w a0 a1 a2 a3 a4 more position :
  chat_type u = private ->
  args u = a0 :: a1 :: a2 :: a3 :: a4 :: more ->
  py_int a0 = Some position ->
  (position < 1 ∨ position > Z.of_nat (length (link_queue w)))%Z ->
  exec (handle_update_link env u) w = add_reply InvalidLinkNumber w.
Proof.
  intros Hp Ha Hi Hr. unfold handle_update_link.
  rewrite Hp, Ha, Hi. simpl. rewrite exec_bind.
  change (eval (gets link_queue) w) with (link_queue w).
  by rewrite (range_check_true _ _ Hr).
Qed.

Lemma handle_update_link_in_range u w a0 a1 a2 a3 a4 more position :
  chat_type u = private ->
  args u = a0 :: a1 :: a2 :: a3 :: a4 :: more ->
  py_int a0 = Some position ->
  (1 ≤ position ≤ Z.of_nat (length (link_queue w)))%Z ->
  exec (handle_update_link env u) w
  = add_reply (LinkUpdated a1 ("₪" +:+ a2) ("₪" +:+ a3) (a4 +:+ "%"))
      (exec (update_at env (Z.to_nat (position - 1))
               (update_fields a1 ("₪" +:+ a2) ("₪" +:+ a3) (a4 +:+ "%")))
            w).
Proof.
  intros Hp Ha Hi Hr. unfold handle_update_link.
  rewrite Hp, Ha, Hi. simpl. rewrite exec_bind.
  change (eval (gets link_queue) w) with (link_queue w).
  rewrite (range_check_false _ _ Hr).
  change (exec (gets link_queue) w) with w.
  by rewrite exec_bind.
Qed.

(** C4.  [/updatelink] reads its first argument as a 1-based position.
    When that position is below 1 or above the length of the queue the
    handler answers that the link number is invalid (the [OutOfRange]
    outcome) and does nothing else: the queue and the persisted
    document are exactly as before, and no write is attempted. *)
Theorem update_out_of_range_changes_nothing
    (u : Update) (w : World) (a0 a1 a2 a3 a4 : string) (more : list string)
    (position : Z) :
  chat_type u = private ->
  args u = a0 :: a1 :: a2 :: a3 :: a4 :: more ->
  py_int a0 = Some position ->
  (position < 1 ∨ position > Z.of_nat (length (link_queue w)))%Z ->
  let w' := exec (handle_update_link env u) w in
  w' = add_reply InvalidLinkNumber w
  ∧ link_queue w' = link_queue w
  ∧ links_file w' = links_file w
  ∧ clock w' = clock w
  ∧ replies w' = replies w ++ [InvalidLinkNumber].
Proof.
  intros Hp Ha Hi Hr w'. subst w'.
  by rewrite (handle_update_link_out_of_range u w a0 a1 a2 a3 a4 more
                position Hp Ha Hi Hr).
Qed.

Lemma update_fields_lookup title price original_price discount k :
  k ∉ ["title"; "price"; "original_price"; "discount"] ->
  update_fields title price original_price discount !! k = None.
Proof.
  intros Hk. unfold update_fields.
  rewrite !not_elem_of_cons in Hk. destruct Hk as (? & ? & ? & ? & _).
  by rewrite !lookup_insert_ne, lookup_singleton_ne.
Qed.

(** C5.  A successful [/updatelink] rewrites the four named fields of
    the record at the given position and nothing else: the queue keeps
    its length, every other position holds the record it held before,
    and in the updated record every key other than title, price,
    original_price and discount (so product_id, url and affiliate_link
    in particular) keeps its value. *)
Theorem update_changes_only_named_fields
    (u : Update) (w : World) (a0 a1 a2 a3 a4 : string) (more : list string)
    (position : Z) :
  chat_type u = private ->
  args u = a0 :: a1 :: a2 :: a3 :: a4 :: more ->
  py_int a0 = Some position ->
  (1 ≤ position ≤ Z.of_nat (length (link_queue w)))%Z ->
  let w' := exec (handle_update_link env u) w in
  let i := Z.to_nat (position - 1) in
  length (link_queue w') = length (link_queue w)
  ∧ (∀ j, j ≠ i -> link_queue w' !! j = link_queue w !! j)
  ∧ (∃ old new,
       link_queue w !! i = Some old
       ∧ link_queue w' !! i = Some new
       ∧ new !! "title" = Some a1
       ∧ new !! "price" = Some ("₪" +:+ a2)
       ∧ new !! "original_price" = Some ("₪" +:+ a3)
       ∧ new !! "discount" = Some (a4 +:+ "%")
       ∧ (∀ k, k ∉ ["title"; "price"; "original_price"; "discount"] ->
               new !! k = old !! k)
       ∧ new !! "product_id" = old !! "product_id"
       ∧ new !! "url" = old !! "url"
       ∧ new !! "affiliate_link" = old !! "affiliate_link")
  ∧ replies w' = replies w
      ++ [LinkUpdated a1 ("₪" +:+ a2) ("₪" +:+ a3) (a4 +:+ "%")].
Proof.
  intros Hp Ha Hi Hr w' i. subst w'.
  rewrite (handle_update_link_in_range u w a0 a1 a2 a3 a4 more position
             Hp Ha Hi Hr). fold i.
  unfold add_reply. cbn [link_queue replies].
  rewrite update_at_queue, update_at_replies.
  split; [apply length_alter|].
  split. { intros j Hj. by apply list_lookup_alter_ne. }
  split; [|done].
  assert (Hlt : (i < length (link_queue w))%nat) by (subst i; lia).
  destruct (lookup_lt_is_Some_2 _ _ Hlt) as [old Hold].
  exists old, (dict_update
                 (update_fields a1 ("₪" +:+ a2) ("₪" +:+ a3) (a4 +:+ "%"))
                 old).
  split; [done|]. split. { by rewrite list_lookup_alter_eq, Hold. }
  unfold dict_update.
  assert (Hother : ∀ k,
             k ∉ ["title"; "price"; "original_price"; "discount"] ->
             (update_fields a1 ("₪" +:+ a2) ("₪" +:+ a3) (a4 +:+ "%") ∪ old)
               !! k = old !! k).
  { intros k Hk. apply lookup_union_r. by apply update_fields_lookup. }
  repeat split.
  - by apply lookup_union_Some_l.
  - by apply lookup_union_Some_l.
  - by apply lookup_union_Some_l.
  - by apply lookup_union_Some_l.
  - exact Hother.
  - apply Hother. clear. apply (bool_decide_unpack _). by vm_compute.
  - apply Hother. clear. apply (bool_decide_unpack _). by vm_compute.
  - apply Hother. clear. apply (bool_decide_unpack _). by vm_compute.
Qed.
(** *** Adding a link *)

Lemma truthy_Some o s : truthy o = Some s -> o = Some s ∧ s ≠ "".
Proof. destruct o as [[|a t]|]; simpl; intros; by simplify_eq. Qed.

Lemma status_ok (z : Z) : bool_decide (z ≠ 200%Z) = false -> z = 200%Z.
Proof.
  intros H. apply bool_decide_eq_false in H. by apply dec_stable in H.
Qed.

Ltac add_link_rejected :=
  left; eexists; split;
  [|split; [simpl; reflexivity|split; [simpl; reflexivity|apply last_snoc]]];
  reflexivity.

Ltac add_link_appended :=
  right; do 3 eexists; split;
  [|split; [simpl; reflexivity|apply last_snoc]];
  repeat match goal with
    | H : truthy _ = Some _ |- _ => apply truthy_Some in H as [? ?]
    | H : bool_decide (_ ≠ 200%Z) = false |- _ => apply status_ok in H; subst
    end;
  repeat split; eauto 10.

Lemma bot_add_link_outcome u w :
  add_link_outcome (scraping_resolved env) u w
    (exec (Bot.handle_add_link env u) w).
Proof.
  unfold add_link_outcome, Bot.handle_add_link, Bot.extract_product_id,
    Bot.fetch_product_details, enqueue, save_links.
  destruct (chat_type u); try done.
  destruct (args u) as [|url more]; [done|].
  run. repeat case_match; simplify_eq; simpl;
    first [add_link_rejected | add_link_appended].
Qed.

Lemma api_add_link_outcome u w :
  add_link_outcome (api_resolved env) u w
    (exec (BotApi.handle_add_link env u) w).
Proof.
  unfold add_link_outcome, BotApi.handle_add_link,
    BotApi.extract_product_id, BotApi.fetch_product_details,
    BotApi.generate_affiliate_link, enqueue, save_links.
  destruct (chat_type u); try done.
  destruct (args u) as [|url more]; [done|].
  run. repeat case_match; simplify_eq; simpl;
    first [add_link_rejected | add_link_appended].
Qed.

Lemma bot_add_link_no_product_id u w url more :
  chat_type u = private ->
  args u = url :: more ->
  search_item_id url = None ->
  (∀ n, follow_redirects env n url = None) ->
  rejected w (exec (Bot.handle_add_link env u) w) ProductIdNotFound.
Proof.
  intros Hp Ha Hs Hr.
  unfold Bot.handle_add_link, Bot.extract_product_id. rewrite Hp, Ha.
  run. rewrite Hs. destruct (contains _ url); simpl.
  - unfold rejected. simpl. repeat split. apply last_snoc.
  - rewrite Hr. simpl. unfold rejected. simpl. repeat split. apply last_snoc.
Qed.

Lemma api_add_link_no_product_id u w url more :
  chat_type u = private ->
  args u = url :: more ->
  search_item_id url = None ->
  rejected w (exec (BotApi.handle_add_link env u) w) ProductIdNotFound.
Proof.
  intros Hp Ha Hs.
  unfold BotApi.handle_add_link, BotApi.extract_product_id. rewrite Hp, Ha.
  run. rewrite Hs. simpl. unfold rejected. simpl. repeat split.
  apply last_snoc.
Qed.

Lemma api_add_link_appended u w url more product_id title aff :
  chat_type u = private ->
  args u = url :: more ->
  search_item_id url = Some product_id ->
  (∀ n, product_title env n url = Some title) ->
  (∀ n, promotion_link env n url = Some aff) ->
  aff ≠ "" ->
  let w' := exec (BotApi.handle_add_link env u) w in
  appended w w'
    {[ "title" := title; "product_id" := product_id; "url" := url;
       "affiliate_link" := aff ]}
    (LinkAdded title aff)
  ∧ sent w' = sent w.
Proof.
  intros Hp Ha Hs Ht Hl Hne w'. subst w'.
  pose proof (search_item_id_nonempty url product_id Hs) as Hpid.
  unfold BotApi.handle_add_link, BotApi.extract_product_id,
    BotApi.fetch_product_details, BotApi.generate_affiliate_link,
    enqueue, save_links.
  rewrite Hp, Ha. run.
  rewrite Hs, (truthy_nonempty _ Hpid), Ht. simpl.
  rewrite Hl, (truthy_nonempty _ Hne). simpl.
  unfold appended. destruct (fs_write env _); simpl;
    (split; [split; [done|apply last_snoc]|done]).
Qed.

Lemma bot_add_link_appended u w url more product_id title :
  chat_type u = private ->
  args u = url :: more ->
  eval (Bot.extract_product_id env url) (add_reply LookingUpProductId w)
  = Some product_id ->
  (∀ n, product_title env n url = Some title) ->
  let w' := exec (Bot.handle_add_link env u) w in
  appended w w'
    {[ "title" := title; "product_id" := product_id; "url" := url;
       "affiliate_link" := url ]}
    (LinkAdded title url)
  ∧ sent w' = sent w.
Proof.
  intros Hp Ha Hid Ht w'. subst w'.
  assert (Hpid : product_id ≠ "").
  { unfold Bot.extract_product_id in Hid. run.
    destruct (contains _ url); simpl in Hid.
    - by apply (search_item_id_nonempty url).
    - destruct (follow_redirects env _ url) as [[status final]|];
        [|done].
      destruct (bool_decide (status ≠ 200%Z)); [done|]. simpl in Hid.
      by apply (search_item_id_nonempty final). }
  unfold Bot.handle_add_link, Bot.fetch_product_details, enqueue, save_links.
  rewrite Hp, Ha. simpl. rewrite !exec_bind.
  change (exec (reply_text LookingUpProductId) w)
    with (add_reply LookingUpProductId w).
  rewrite Hid, (truthy_nonempty _ Hpid).
  set (w1 := exec (Bot.extract_product_id env url) _).
  assert (Hframe : link_queue w1 = link_queue w ∧ sent w1 = sent w).
  { subst w1. unfold Bot.extract_product_id. run.
    destruct (contains _ url); [done|].
    destruct (follow_redirects env _ url) as [[status final]|];
      [|done].
    by destruct (bool_decide (status ≠ 200%Z)). }
  destruct Hframe as [Hq1 Hs1]. clearbody w1.
  run. rewrite Ht. simpl. rewrite Hq1.
  unfold appended. destruct (fs_write env _); simpl;
    (split; [split; [done|apply last_snoc]|done]).
Qed.

(** C9.  [/addlink], in both variants.  Without a URL the handler
    answers with the usage text and does nothing else.  With a URL it
    ends in one of two ways: a resolution error (no product id, no
    product details, or no affiliate link) is reported as its last
    reply and the queue and the persisted document are as before; or
    the resolver did answer with a product id, a title and an affiliate
    link, and the record made of them is appended at the tail of the
    queue.  So a resolver that finds no product id, or no product
    details, or no affiliate link, always leaves the queue unchanged;
    and when the resolver does answer (a product id is extracted, the
    product page yields a title and, in [bot_api.py], the API gives a
    promotion link that is not empty) the record is appended and the
    confirmation is the last reply. *)
Theorem add_link_usage_resolution_or_append (u : Update) (w : World) :
  let w1 := exec (Bot.handle_add_link env u) w in
  let w2 := exec (BotApi.handle_add_link env u) w in
  add_link_outcome (scraping_resolved env) u w w1
  ∧ add_link_outcome (api_resolved env) u w w2
  ∧ (chat_type u = private -> args u = [] ->
     w1 = add_reply AddLinkUsage w ∧ w2 = add_reply AddLinkUsage w)
  ∧ (∀ url more,
       chat_type u = private -> args u = url :: more ->
       search_item_id url = None ->
       (∀ n, follow_redirects env n url = None) ->
       rejected w w1 ProductIdNotFound ∧ rejected w w2 ProductIdNotFound)
  ∧ (∀ url more,
       chat_type u = private -> args u = url :: more ->
       (∀ n, product_title env n url = None) ->
       (∃ reason, is_resolution_error reason = true ∧ rejected w w1 reason)
       ∧ (∃ reason, is_resolution_error reason = true ∧ rejected w w2 reason))
  ∧ (∀ url more,
       chat_type u = private -> args u = url :: more ->
       (∀ n, promotion_link env n url = None) ->
       ∃ reason, is_resolution_error reason = true ∧ rejected w w2 reason)
  ∧ (∀ url more title product_id,
       chat_type u = private -> args u = url :: more ->
       eval (Bot.extract_product_id env url) (add_reply LookingUpProductId w)
       = Some product_id ->
       (∀ n, product_title env n url = Some title) ->
       appended w w1
         {[ "title" := title; "product_id" := product_id; "url" := url;
            "affiliate_link" := url ]}
         (LinkAdded title url))
  ∧ (∀ url more title product_id aff,
       chat_type u = private -> args u = url :: more ->
       search_item_id url = Some product_id ->
       (∀ n, product_title env n url = Some title) ->
       (∀ n, promotion_link env n url = Some aff) ->
       aff ≠ "" ->
       appended w w2
         {[ "title" := title; "product_id" := product_id; "url" := url;
            "affiliate_link" := aff ]}
         (LinkAdded title aff)).
Proof.
  intros w1 w2.
  pose proof (bot_add_link_outcome u w) as H1.
  pose proof (api_add_link_outcome u w) as H2.
  fold w1 in H1. fold w2 in H2.
  split; [exact H1|]. split; [exact H2|].
  unfold add_link_outcome in H1, H2.
  split. { intros Hp Ha. by rewrite Hp, Ha in H1, H2. }
  split.
  { intros url more Hp Ha Hs Hr. split.
    - by apply (bot_add_link_no_product_id u w url more).
    - by apply (api_add_link_no_product_id u w url more). }
  split.
  { intros url more Hp Ha Hnone. rewrite Hp, Ha in H1, H2. split.
    + destruct H1 as [H1|(pid & title & aff & Hres & _)]; [done|].
      destruct Hres as (_ & _ & _ & n & Hn). by rewrite Hnone in Hn.
    + destruct H2 as [H2|(pid & title & aff & Hres & _)]; [done|].
      destruct Hres as (_ & _ & (n & Hn) & _). by rewrite Hnone in Hn. }
  split.
  { intros url more Hp Ha Hnone. rewrite Hp, Ha in H2.
    destruct H2 as [H2|(pid & title & aff & Hres & _)]; [done|].
    destruct Hres as (_ & _ & _ & (n & Hn) & _). by rewrite Hnone in Hn. }
  split.
  - intros url more title product_id Hp Ha Hid Ht.
    by destruct (bot_add_link_appended u w url more product_id title
                   Hp Ha Hid Ht).
  - intros url more title product_id aff Hp Ha Hs Ht Hl Hne.
    by destruct (api_add_link_appended u w url more product_id title aff
                   Hp Ha Hs Ht Hl Hne).
Qed.

(** C10.  Every authoring command is refused outside a private chat:
    [/addlink] (in both variants) and [/updatelink], like [/listlinks]
    and [/clearlinks], answer with the private-chat-only message and do
    nothing else, so the queue and the persisted document are as
    before. *)
Theorem authoring_commands_are_private_only (u : Update) (w : World) :
  chat_type u ≠ private ->
  let refused := add_reply PrivateOnly w in
  exec (Bot.handle_add_link env u) w = refused
  ∧ exec (BotApi.handle_add_link env u) w = refused
  ∧ exec (handle_update_link env u) w = refused
  ∧ exec (handle_list_links u) w = refused
  ∧ exec (handle_clear_links env u) w = refused
  ∧ link_queue refused = link_queue w
  ∧ links_file refused = links_file w
  ∧ replies refused = replies w ++ [PrivateOnly].
Proof.
  intros Hnp refused. subst refused.
  unfold Bot.handle_add_link, BotApi.handle_add_link, handle_update_link,
    handle_list_links, handle_clear_links.
  by destruct (chat_type u).
Qed.

(** *** Durability *)

Lemma save_links_written w :
  fs_write env (clock w) = Written ->
  let w' := exec (save_links env) w in
  links_file w' = Stored (link_queue w')
  ∧ eval load_links w' = link_queue w'.
Proof.
  intros Hw w'. subst w'.
  destruct (save_links_frame w) as [Hq _].
  assert (Hf : links_file (exec (save_links env) w)
               = Stored (link_queue (exec (save_links env) w))).
  { by rewrite save_links_file, Hw, Hq. }
  split; [exact Hf|]. unfold load_links. run. by rewrite Hf.
Qed.

(** C6, as the code has it.  Whenever the write made by [save_links]
    goes through, the persisted document holds the queue, and loading
    it gives back the in-memory queue: this holds after [save_links]
    itself and after each mutating operation (enqueue, update by
    position, dequeue from a non-empty queue, clear).  It also holds
    right after start-up, where the queue is what [load_links] read. *)
Theorem reload_after_successful_write (w : World) :
  fs_write env (clock w) = Written ->
  let synced w' :=
    links_file w' = Stored (link_queue w')
    ∧ eval load_links w' = link_queue w' in
  synced (exec (save_links env) w)
  ∧ (∀ r, synced (exec (enqueue env r) w))
  ∧ (∀ i fields, synced (exec (update_at env i fields) w))
  ∧ (link_queue w ≠ [] -> synced (exec (dequeue_front env) w))
  ∧ synced (exec (clear env) w)
  ∧ eval load_links (exec startup w) = link_queue (exec startup w).
Proof.
  intros Hw synced. subst synced. cbv beta.
  split; [by apply save_links_written|].
  split. { intros r. unfold enqueue. rewrite !exec_bind.
           by apply save_links_written. }
  split. { intros i fields. unfold update_at. rewrite !exec_bind.
           by apply save_links_written. }
  split.
  { intros Hne. destruct (link_queue w) as [|deal rest] eqn:Hq; [done|].
    rewrite (exec_dequeue_front_cons w deal rest Hq).
    by apply save_links_written. }
  split. { unfold clear. rewrite !exec_bind. by apply save_links_written. }
  unfold startup, load_links. run.
  destruct (links_file w) eqn:Hf; simpl; by rewrite Hf.
Qed.
End Properties.

(** ** The theorems at concrete inputs *)

(** C2 at the scenario of the specification: the queue holds A alone,
    the registry is (1, G1), (2, G2), and [/publish] comes from a private
    chat. *)
Lemma broadcast_pass_one_link_per_chat_witness :
  let w := world_with [deal_A] in
  let w2 := exec (handle_publish_command steady (from_private [])) w in
  deal_message deal_A
  = Some ("🔥 A" +:+ newline +:+ newline
          +:+ "🛒 קישור למוצר: https://www.aliexpress.com/item/1001.html")
  ∧ sent w2
    = [(1%Z, "🔥 A" +:+ newline +:+ newline
             +:+ "🛒 קישור למוצר: https://www.aliexpress.com/item/1001.html")]
  ∧ link_queue w2 = [].
Proof.
  intros w w2.
  destruct (broadcast_pass_one_link_per_chat steady w
              [(1%Z, "G1"); (2%Z, "G2")]) as (_ & _ & _ & H).
  split; [vm_compute; reflexivity|].
  apply (H (from_private []) deal_A).
  - reflexivity.
  - reflexivity.
  - reflexivity.
  - vm_compute; reflexivity.
  - intros n; reflexivity.
Defined.

(** C3 with A and B queued, chats 1 and 2, and Telegram refusing the
    message to chat 1: A is gone from the queue and from the document,
    chat 1 received nothing, and chat 2 received B. *)
Lemma failed_delivery_is_not_requeued_witness :
  let w := world_with [deal_A; deal_B] in
  let w1 := exec (send_real_deal_to_chat first_send_refused 1 "G1") w in
  let w' := exec (send_real_deals_to_all first_send_refused
                    [(1%Z, "G1"); (2%Z, "G2")]) w in
  send_message_ok first_send_refused (S (clock w)) = false
  ∧ (sent w1 = [] ∧ link_queue w1 = [deal_B]
     ∧ links_file w1 = Stored [deal_B]
     ∧ last (log w1) = Some (ErrorSendingRealDeal "G1"))
  ∧ (sent w'
     = [(2%Z, "🔥 B" +:+ newline +:+ newline
              +:+ "🛒 קישור למוצר: https://www.aliexpress.com/item/1002.html")]
     ∧ link_queue w' = []).
Proof.
  intros w w1 w'.
  destruct (failed_delivery_is_not_requeued first_send_refused w 1 "G1"
              [(2%Z, "G2")]) as (_ & _ & _ & _ & H5 & H6).
  split; [reflexivity|]. split.
  - apply (H5 deal_A [deal_B]
             ("🔥 A" +:+ newline +:+ newline
              +:+ "🛒 קישור למוצר: https://www.aliexpress.com/item/1001.html")).
    + reflexivity.
    + vm_compute; reflexivity.
    + reflexivity.
  - apply (H6 deal_A deal_B []
             ("🔥 A" +:+ newline +:+ newline
              +:+ "🛒 קישור למוצר: https://www.aliexpress.com/item/1001.html")
             ("🔥 B" +:+ newline +:+ newline
              +:+ "🛒 קישור למוצר: https://www.aliexpress.com/item/1002.html")
             2%Z "G2").
    + reflexivity.
    + vm_compute; reflexivity.
    + vm_compute; reflexivity.
    + reflexivity.
    + reflexivity.
    + reflexivity.
Defined.

(** C4 at the scenario of the specification: [/updatelink 5 ...] on a
    queue of two. *)
Lemma update_out_of_range_changes_nothing_witness :
  let w := world_with [deal_A; deal_B] in
  let u := from_private ["5"; "Gadget"; "49.99"; "199.99"; "75"] in
  let w' := exec (handle_update_link steady u) w in
  (5 < 1 ∨ 5 > Z.of_nat (length (link_queue w)))%Z
  ∧ link_queue w' = [deal_A; deal_B]
  ∧ links_file w' = Stored [deal_A; deal_B]
  ∧ replies w' = [InvalidLinkNumber].
Proof.
  intros w u w'.
  assert (Hr : (5 < 1 ∨ 5 > Z.of_nat (length (link_queue w)))%Z)
    by (right; simpl; lia).
  split; [exact Hr|].
  destruct (update_out_of_range_changes_nothing steady u w
              "5" "Gadget" "49.99" "199.99" "75" [] 5
              eq_refl eq_refl eq_refl Hr) as (_ & Hq & Hf & _ & Hrep).
  split; [exact Hq|]. split; [exact Hf|]. exact Hrep.
Defined.

(** C5 at a concrete update of the second of two records, the position
    being written with the Arabic-Indic digit two, which [int] reads
    as 2. *)
Lemma update_changes_only_named_fields_witness :
  let w := world_with [deal_A; deal_B] in
  let u := from_private ["٢"; "Bee"; "49.99"; "199.99"; "75"] in
  let w' := exec (handle_update_link steady u) w in
  (1 ≤ 2 ≤ Z.of_nat (length (link_queue w)))%Z
  ∧ length (link_queue w') = 2%nat
  ∧ link_queue w' !! 0%nat = Some deal_A
  ∧ ∃ new, link_queue w' !! 1%nat = Some new
           ∧ new !! "title" = Some "Bee"
           ∧ new !! "url" = Some "https://www.aliexpress.com/item/1002.html".
Proof.
  intros w u w'.
  assert (Hr : (1 ≤ 2 ≤ Z.of_nat (length (link_queue w)))%Z)
    by (simpl; lia).
  split; [exact Hr|].
  destruct (update_changes_only_named_fields steady u w
              "٢" "Bee" "49.99" "199.99" "75" [] 2
              eq_refl eq_refl eq_refl Hr)
    as (Hlen & Hother & (old & new & Hold & Hnew & Ht & _ & _ & _ & _ & _ & Hu & _) & _).
  split; [exact Hlen|].
  split. { apply (Hother 0%nat). simpl. lia. }
  exists new. split; [exact Hnew|]. split; [exact Ht|].
  rewrite Hu. change (link_queue w !! 1%nat) with (Some deal_B) in Hold.
  injection Hold as <-. vm_compute; reflexivity.
Defined.

(** C6, the claim as written, fails when the write fails: on a disk
    that refuses the write, the queue holds the new record and the
    document, which was never created, loads as the empty queue. *)
Lemma reload_after_failed_write_differs :
  let w' := exec (enqueue read_only_disk deal_A) fresh_world in
  link_queue w' = [deal_A]
  ∧ eval load_links w' = []
  ∧ eval load_links w' ≠ link_queue w'.
Proof.
  intros w'. split; [reflexivity|]. split; [reflexivity|].
  change (eval load_links w') with (@nil LinkRecord).
  change (link_queue w') with [deal_A]. discriminate.
Qed.

(** C6 as amended, at a first [enqueue] on a fresh start with a working
    disk. *)
Lemma reload_after_successful_write_witness :
  let w' := exec (enqueue steady deal_A) fresh_world in
  fs_write steady (clock fresh_world) = Written
  ∧ links_file w' = Stored [deal_A]
  ∧ eval load_links w' = [deal_A].
Proof.
  intros w'. split; [reflexivity|].
  destruct (reload_after_successful_write steady fresh_world eq_refl)
    as (_ & H & _).
  exact (H deal_A).
Defined.

(** C8 at the scenario of the specification: A and B queued, [/publish]
    from a group. *)
Lemma publish_from_group_serves_that_chat_witness :
  let w := world_with [deal_A; deal_B] in
  let w' := exec (handle_publish_command steady (from_group [])) w in
  chat_type (from_group []) ≠ private
  ∧ link_queue w' = [deal_B]
  ∧ sent w'
    = [((-1007)%Z, "🔥 A" +:+ newline +:+ newline
          +:+ "🛒 קישור למוצר: https://www.aliexpress.com/item/1001.html")].
Proof.
  intros w w'.
  assert (Hg : chat_type (from_group []) ≠ private) by discriminate.
  split; [exact Hg|].
  destruct (publish_from_group_serves_that_chat steady (from_group []) w Hg)
    as (_ & _ & _ & H).
  destruct (H deal_A deal_B []
              ("🔥 A" +:+ newline +:+ newline
               +:+ "🛒 קישור למוצר: https://www.aliexpress.com/item/1001.html"))
    as (Hq & _ & Hs).
  - reflexivity.
  - vm_compute; reflexivity.
  - split; [exact Hq|]. apply Hs. reflexivity.
Defined.

(** C9 at both ends.  With a resolver that finds nothing, neither
    variant of [/addlink] touches the queue.  With a resolver that
    answers, both append the record: for the URL of a product whose
    identifier is written in Arabic-Indic digits as well as for the URL
    of the usage text. *)
Lemma add_link_usage_resolution_or_append_witness :
  let w := world_with [deal_A] in
  let nowhere := from_private ["https://example.org/no-product-here"] in
  let url := "https://www.aliexpress.com/item/١٢٣.html" in
  let u := from_private [url] in
  (link_queue (exec (Bot.handle_add_link resolver_down nowhere) w) = [deal_A]
   ∧ link_queue (exec (BotApi.handle_add_link resolver_down nowhere) w)
     = [deal_A]
   ∧ last (replies (exec (BotApi.handle_add_link resolver_down nowhere) w))
     = Some ProductIdNotFound)
  ∧ search_item_id url = Some "١٢٣"
  ∧ link_queue (exec (Bot.handle_add_link steady u) w)
    = [deal_A;
       {[ "title" := "Gadget"; "product_id" := "١٢٣"; "url" := url;
          "affiliate_link" := url ]}]
  ∧ link_queue (exec (BotApi.handle_add_link steady u) w)
    = [deal_A;
       {[ "title" := "Gadget"; "product_id" := "١٢٣"; "url" := url;
          "affiliate_link" := "https://s.click.aliexpress.com/e/_abc" ]}].
Proof.
  intros w nowhere url u. split.
  { destruct (add_link_usage_resolution_or_append resolver_down nowhere w)
      as (_ & _ & _ & H & _).
    destruct (H "https://example.org/no-product-here" []) as [H1 H2].
    - reflexivity.
    - reflexivity.
    - vm_compute; reflexivity.
    - intros n; reflexivity.
    - destruct H1 as (Hq1 & _). destruct H2 as (Hq2 & _ & Hr2).
      split; [exact Hq1|]. split; [exact Hq2|exact Hr2]. }
  assert (Hs : search_item_id url = Some "١٢٣") by (vm_compute; reflexivity).
  split; [exact Hs|].
  destruct (add_link_usage_resolution_or_append steady u w)
    as (_ & _ & _ & _ & _ & _ & Hbot & Hapi).
  split.
  - apply (Hbot url [] "Gadget" "١٢٣").
    + reflexivity.
    + reflexivity.
    + vm_compute; reflexivity.
    + intros n; reflexivity.
  - apply (Hapi url [] "Gadget" "١٢٣" "https://s.click.aliexpress.com/e/_abc").
    + reflexivity.
    + reflexivity.
    + exact Hs.
    + intros n; reflexivity.
    + intros n; reflexivity.
    + discriminate.
Defined.

(** C10 at [/addlink] and [/updatelink] sent from a group. *)
Lemma authoring_commands_are_private_only_witness :
  let w := world_with [deal_A] in
  let u := from_group ["1"; "Gadget"; "49.99"; "199.99"; "75"] in
  chat_type u ≠ private
  ∧ exec (Bot.handle_add_link steady u) w = add_reply PrivateOnly w
  ∧ exec (BotApi.handle_add_link steady u) w = add_reply PrivateOnly w
  ∧ exec (handle_update_link steady u) w = add_reply PrivateOnly w
  ∧ link_queue (add_reply PrivateOnly w) = [deal_A].
Proof.
  intros w u.
  assert (Hg : chat_type u ≠ private) by discriminate.
  split; [exact Hg|].
  destruct (authoring_commands_are_private_only steady u w Hg)
    as (H1 & H2 & H3 & _ & _ & Hq & _).
  split; [exact H1|]. split; [exact H2|]. split; [exact H3|exact Hq].
Defined.


(** * Further properties of the code *)

(** ** [str] and [int] on chat identifiers *)

Lemma digit_value_pretty_char (d : N) :
  (d < 10)%N -> digit_value (pretty_N_char d) = Some (Z.of_N d).
Proof.
  intros Hd.
  assert (d = 0 ∨ d = 1 ∨ d = 2 ∨ d = 3 ∨ d = 4 ∨ d = 5 ∨ d = 6 ∨ d = 7
          ∨ d = 8 ∨ d = 9)%N as H by lia.
  destruct H as [->|[->|[->|[->|[->|[->|[->|[->|[->| ->]]]]]]]]];
    reflexivity.
Qed.

Lemma int_digits_pretty_go (x : N) :
  (0 < x)%N ->
  ∃ k : Z, (0 ≤ k)%Z ∧ ∀ s acc b,
    int_digits acc b (pretty_N_go x s)
    = int_digits (acc * 10 ^ k + Z.of_N x)%Z true s.
Proof.
  induction (N.lt_wf_0 x) as [x _ IH]. intros Hx.
  assert (Hmod : (x `mod` 10 < 10)%N) by (apply N.mod_lt; lia).
  assert (Hdm : (x = 10 * (x `div` 10) + x `mod` 10)%N)
    by (apply N.div_mod; lia).
  destruct (decide (x `div` 10 = 0)%N) as [Hz|Hnz].
  - exists 1%Z. split; [lia|]. intros s acc b.
    rewrite pretty_N_go_step, Hz, pretty_N_go_0 by done. simpl.
    rewrite (digit_value_pretty_char _ Hmod). f_equal. lia.
  - destruct (IH (x `div` 10)%N) as (k & Hk & IHk).
    { apply N.div_lt; lia. }
    { lia. }
    exists (k + 1)%Z. split; [lia|]. intros s acc b.
    rewrite pretty_N_go_step, IHk by done. simpl.
    rewrite (digit_value_pretty_char _ Hmod). f_equal.
    rewrite Z.pow_add_r, Z.pow_1_r by lia. lia.
Qed.

Lemma pretty_go_starts_with_digit (x : N) :
  (0 < x)%N ->
  ∀ s, ∃ c rest d,
    pretty_N_go x s = String c rest ∧ digit_value c = Some d.
Proof.
  induction (N.lt_wf_0 x) as [x _ IH]. intros Hx s.
  assert (Hmod : (x `mod` 10 < 10)%N) by (apply N.mod_lt; lia).
  rewrite pretty_N_go_step by done.
  destruct (decide (x `div` 10 = 0)%N) as [Hz|Hnz].
  - rewrite Hz, pretty_N_go_0. do 3 eexists. split; [done|].
    by apply digit_value_pretty_char.
  - apply IH; [apply N.div_lt; [exact Hx|reflexivity]|].
    by apply N.neq_0_lt_0.
Qed.

Lemma digit_is_plain (c : ascii) (d : Z) :
  digit_value c = Some d ->
  is_space c = false ∧ Ascii.eqb c "-" = false ∧ Ascii.eqb c "+" = false.
Proof.
  unfold digit_value, is_space. intros H.
  case_bool_decide as Hr; [|done].
  split. { apply bool_decide_eq_false. lia. }
  split; apply Ascii.eqb_neq; intros ->; simpl in Hr; lia.
Qed.

Lemma parse_decimal_pretty_N (x : N) :
  (0 < x)%N -> parse_decimal (pretty_N_go x "") = Some (Z.of_N x).
Proof.
  intros Hx.
  destruct (pretty_go_starts_with_digit x Hx "") as (c & rest & d & Hs & Hd).
  destruct (digit_is_plain c d Hd) as (Hsp & Hm & Hp).
  destruct (int_digits_pretty_go x Hx) as (k & _ & Hk).
  unfold parse_decimal. rewrite Hs. cbn [lstrip]. rewrite Hsp. cbv beta iota.
  rewrite Hm, Hp, <- Hs, Hk. simpl. f_equal; lia.
Qed.

Lemma parse_decimal_pretty_Z (z : Z) : parse_decimal (pretty z) = Some z.
Proof.
  destruct z as [|p|p].
  - reflexivity.
  - change (pretty (Z.pos p)) with (pretty (N.pos p)).
    unfold pretty, pretty_N. destruct (decide (Npos p = 0%N)); [done|].
    by rewrite parse_decimal_pretty_N.
  - change (pretty (Z.neg p)) with ("-" +:+ pretty (N.pos p)).
    unfold pretty, pretty_N. destruct (decide (Npos p = 0%N)); [done|].
    destruct (int_digits_pretty_go (N.pos p) eq_refl) as (k & _ & Hk).
    unfold parse_decimal.
    change (lstrip ("-" +:+ pretty_N_go (N.pos p) ""))
      with (String "-" (pretty_N_go (N.pos p) "")).
    cbv beta iota. change (Ascii.eqb "-" "-") with true. cbv beta iota.
    rewrite Hk. simpl. f_equal; lia.
Qed.

(** On plain ASCII the code points are the bytes and [int] parses the
    string as it stands. *)
Lemma decode_one_plain a s :
  (N_of_ascii a <? 127)%N = true ->
  decode_one (String a s) = Some (Some (N_of_ascii a), String a "", s).
Proof.
  intros Ha. unfold decode_one.
  assert (H : (N_of_ascii a <? 128)%N = true).
  { apply N.ltb_lt. apply N.ltb_lt in Ha. lia. }
  by rewrite H.
Qed.

Lemma ascii_form_upto_plain s (fuel : nat) :
  is_plain s = true ->
  (String.length s ≤ fuel)%nat ->
  String.string_of_list_ascii (ascii_form_char <$> code_points_upto fuel s)
  = s.
Proof.
  revert fuel. induction s as [|a s IH]; intros fuel Hp Hlen.
  - by destruct fuel.
  - simpl in Hp. apply andb_true_iff in Hp as [Ha Hs].
    destruct fuel as [|fuel]; [simpl in Hlen; lia|].
    cbn [code_points_upto]. rewrite (decode_one_plain a s Ha).
    rewrite fmap_cons. cbn [String.string_of_list_ascii].
    rewrite IH; [|done|simpl in Hlen; lia].
    unfold ascii_form_char. cbn [fst]. rewrite Ha.
    by rewrite ascii_N_embedding.
Qed.

Lemma ascii_form_plain s : is_plain s = true -> ascii_form s = s.
Proof. intros Hp. by apply ascii_form_upto_plain. Qed.

Lemma pretty_N_char_plain (d : N) :
  (d < 10)%N -> (N_of_ascii (pretty_N_char d) <? 127)%N = true.
Proof.
  intros Hd.
  assert (d = 0 ∨ d = 1 ∨ d = 2 ∨ d = 3 ∨ d = 4 ∨ d = 5 ∨ d = 6 ∨ d = 7
          ∨ d = 8 ∨ d = 9)%N as H by lia.
  destruct H as [->|[->|[->|[->|[->|[->|[->|[->|[->| ->]]]]]]]]];
    reflexivity.
Qed.

Lemma pretty_N_go_plain (x : N) s :
  is_plain s = true -> is_plain (pretty_N_go x s) = true.
Proof.
  revert s. induction (N.lt_wf_0 x) as [x _ IH]. intros s Hs.
  destruct (decide (x = 0)%N) as [->|Hx]; [by rewrite pretty_N_go_0|].
  assert (Hpos : (0 < x)%N) by lia.
  rewrite pretty_N_go_step by done.
  apply IH; [apply N.div_lt; [exact Hpos|reflexivity]|].
  simpl. rewrite pretty_N_char_plain; [done|]. apply N.mod_lt. lia.
Qed.

Lemma pretty_Z_plain (z : Z) : is_plain (pretty z) = true.
Proof.
  destruct z as [|p|p].
  - reflexivity.
  - change (pretty (Z.pos p)) with (pretty (N.pos p)).
    unfold pretty, pretty_N. destruct (decide (Npos p = 0%N)); [done|].
    by apply pretty_N_go_plain.
  - change (pretty (Z.neg p)) with ("-" +:+ pretty (N.pos p)).
    unfold pretty, pretty_N. destruct (decide (Npos p = 0%N)); [done|].
    change (is_plain (String "-" (pretty_N_go (N.pos p) "")) = true).
    simpl. by apply pretty_N_go_plain.
Qed.

Lemma py_int_pretty_Z (z : Z) : py_int (pretty z) = Some z.
Proof.
  unfold py_int. rewrite (ascii_form_plain _ (pretty_Z_plain z)).
  apply parse_decimal_pretty_Z.
Qed.


(** ** The chat registry *)

Lemma dict_get_set_eq key value d :
  dict_get key (dict_set key value d) = Some value.
Proof.
  induction d as [|[k v] d IH]; simpl.
  - by rewrite decide_True.
  - destruct (decide (k = key)) as [->|Hne]; simpl.
    + by rewrite decide_True.
    + by rewrite decide_False.
Qed.

Lemma dict_get_set_ne key value other d :
  other ≠ key -> dict_get other (dict_set key value d) = dict_get other d.
Proof.
  intros Hne. induction d as [|[k v] d IH]; simpl.
  - by rewrite decide_False.
  - destruct (decide (k = key)) as [->|Hk]; simpl.
    + by rewrite !decide_False.
    + destruct (decide (k = other)); [done|exact IH].
Qed.

Lemma dict_set_present key value old d :
  dict_get key d = Some old ->
  (dict_set key value d).*1 = d.*1.
Proof.
  induction d as [|[k v] d IH]; [done|]. cbn [dict_set dict_get].
  destruct (decide (k = key)) as [->|Hk]; [done|].
  intros H. rewrite !fmap_cons. f_equal. by apply IH.
Qed.

Lemma dict_set_absent key value d :
  dict_get key d = None -> dict_set key value d = d ++ [(key, value)].
Proof.
  induction d as [|[k v] d IH]; simpl; [done|].
  destruct (decide (k = key)) as [->|Hk]; [done|].
  intros H. by rewrite IH.
Qed.

Lemma dict_get_None_keys key d : dict_get key d = None -> key ∉ d.*1.
Proof.
  induction d as [|[k v] d IH]; simpl; [intros _; apply not_elem_of_nil|].
  destruct (decide (k = key)) as [->|Hk]; [done|].
  intros H. apply not_elem_of_cons. split; [done|by apply IH].
Qed.

Lemma dict_set_NoDup key value d :
  NoDup d.*1 -> NoDup (dict_set key value d).*1.
Proof.
  intros Hd. destruct (dict_get key d) as [old|] eqn:Hg.
  - by rewrite (dict_set_present key value old d Hg).
  - rewrite (dict_set_absent key value d Hg), fmap_app. simpl.
    apply NoDup_app. split; [done|]. split.
    + intros k Hk Hin. apply list_elem_of_singleton in Hin as ->.
      by apply (dict_get_None_keys key d Hg).
    + apply NoDup_singleton.
Qed.

Lemma dict_set_twice key value d :
  dict_set key value (dict_set key value d) = dict_set key value d.
Proof.
  induction d as [|[k v] d IH]; simpl.
  - by rewrite decide_True.
  - destruct (decide (k = key)) as [->|Hk]; simpl.
    + by rewrite decide_True.
    + by rewrite decide_False, IH.
Qed.

Lemma get_chats_eval w :
  eval get_chats w
  = mapM (fun '(key, title) => id ← py_int key; Some (id, title))
         (eval load_chats w).
Proof. unfold get_chats. by rewrite eval_bind. Qed.

Lemma load_chats_stored w doc :
  chats_file w = Stored doc -> load_chats w = (doc, w).
Proof. intros Hf. unfold load_chats. run. by rewrite Hf. Qed.

Lemma registered_chats_after_set key value id doc cs :
  py_int key = Some id ->
  Forall2 (fun entry c =>
             (let '(k, title) := entry in i ← py_int k; Some (i, title))
             = Some c) doc cs ->
  ∃ cs',
    Forall2 (fun entry c =>
               (let '(k, title) := entry in i ← py_int k; Some (i, title))
               = Some c) (dict_set key value doc) cs'
    ∧ (id, value) ∈ cs'
    ∧ ∀ c, c ∈ cs -> c.1 ≠ id -> c ∈ cs'.
Proof.
  intros Hkey. induction 1 as [|[k v] c doc cs Hc Hrest IH]; simpl.
  - exists [(id, value)]. split.
    + constructor; [by rewrite Hkey|constructor].
    + split; [apply list_elem_of_here|]. intros c Hin.
      by apply elem_of_nil in Hin.
  - destruct (decide (k = key)) as [->|Hk].
    + exists ((id, value) :: cs). split.
      * constructor; [by rewrite Hkey|done].
      * split; [apply list_elem_of_here|]. intros c' Hin Hne.
        apply elem_of_cons in Hin as [->|Hin].
        -- rewrite Hkey in Hc. simpl in Hc. by simplify_eq.
        -- by apply list_elem_of_further.
    + destruct IH as (cs' & Hf & Hin & Hkeep).
      exists (c :: cs'). split; [by constructor|].
      split; [by apply list_elem_of_further|]. intros c' Hc' Hne.
      apply elem_of_cons in Hc' as [->|Hc'].
      * apply list_elem_of_here.
      * apply list_elem_of_further. by apply Hkeep.
Qed.

Section RegistryProperties.
Context (env : Env).

Lemma handle_new_chat_members_written u w :
  chat_type u = group ∨ chat_type u = supergroup ->
  fs_write env (clock w) = Written ->
  let w' := exec (handle_new_chat_members env u) w in
  chats_file w'
  = Stored (dict_set (pretty (chat_id u)) (chat_title u) (eval load_chats w))
  ∧ link_queue w' = link_queue w
  ∧ links_file w' = links_file w
  ∧ sent w' = sent w
  ∧ clock w' = S (clock w).
Proof.
  intros Hg Hw w'. subst w'.
  unfold handle_new_chat_members, save_chats, load_chats.
  destruct Hg as [-> | ->]; run;
    destruct (chats_file w); simpl; by rewrite Hw.
Qed.

(** X2.  When the bot is added to a group or a supergroup and the write
    of the registry goes through, the registry document becomes the one
    that was loaded with the chat's title filed under [str(chat.id)]:
    that key now reads as the title and every other key reads as before.
    If [get_chats] could read the registry before, it can read it after,
    the new chat is among the chats it returns, and so is every chat
    with another identifier.  A registry that could not be read is
    replaced by one holding the new chat alone.  The link queue, its
    document and the messages sent are untouched. *)
Theorem new_group_is_registered (u : Update) (w : World) :
  chat_type u = group ∨ chat_type u = supergroup ->
  fs_write env (clock w) = Written ->
  let w' := exec (handle_new_chat_members env u) w in
  let key := pretty (chat_id u) in
  chats_file w' = Stored (dict_set key (chat_title u) (eval load_chats w))
  ∧ dict_get key (eval load_chats w') = Some (chat_title u)
  ∧ (∀ k, k ≠ key ->
          dict_get k (eval load_chats w') = dict_get k (eval load_chats w))
  ∧ (∀ cs, eval get_chats w = Some cs ->
       ∃ cs', eval get_chats w' = Some cs'
              ∧ (chat_id u, chat_title u) ∈ cs'
              ∧ ∀ c, c ∈ cs -> c.1 ≠ chat_id u -> c ∈ cs')
  ∧ (chats_file w = Unreadable ->
     chats_file w' = Stored [(key, chat_title u)])
  ∧ link_queue w' = link_queue w
  ∧ links_file w' = links_file w
  ∧ sent w' = sent w.
Proof.
  intros Hg Hw w' key.
  destruct (handle_new_chat_members_written u w Hg Hw)
    as (Hf & Hq & Hl & Hs & _).
  fold w' in Hf, Hq, Hl, Hs. fold key in Hf.
  assert (Hload : eval load_chats w'
                  = dict_set key (chat_title u) (eval load_chats w)).
  { unfold eval at 1. by rewrite (load_chats_stored w' _ Hf). }
  split; [exact Hf|]. split. { rewrite Hload. apply dict_get_set_eq. }
  split. { intros k Hk. rewrite Hload. by apply dict_get_set_ne. }
  split.
  { intros cs Hcs. rewrite get_chats_eval in Hcs.
    apply mapM_Some in Hcs.
    destruct (registered_chats_after_set key (chat_title u) (chat_id u)
                (eval load_chats w) cs (py_int_pretty_Z (chat_id u)) Hcs)
      as (cs' & Hf' & Hin & Hkeep).
    exists cs'. split; [|done].
    rewrite get_chats_eval, Hload. by apply mapM_Some. }
  split.
  { intros Hu. rewrite Hf. unfold eval, load_chats. run. by rewrite Hu. }
  done.
Qed.

(** X3.  Registering keeps the registry a dictionary.  With the write
    going through: distinct keys stay distinct; a chat already on file
    keeps its place and only its title changes; a chat not yet on file
    goes last; and registering the same chat again, with the same title,
    changes nothing more. *)
Theorem registration_keeps_a_dictionary (u : Update) (w : World) :
  chat_type u = group ∨ chat_type u = supergroup ->
  fs_write env (clock w) = Written ->
  fs_write env (S (clock w)) = Written ->
  let w' := exec (handle_new_chat_members env u) w in
  let key := pretty (chat_id u) in
  let doc := eval load_chats w in
  let doc' := eval load_chats w' in
  (NoDup doc.*1 -> NoDup doc'.*1)
  ∧ (is_Some (dict_get key doc) -> doc'.*1 = doc.*1)
  ∧ (dict_get key doc = None -> doc' = doc ++ [(key, chat_title u)])
  ∧ chats_file (exec (handle_new_chat_members env u) w') = chats_file w'.
Proof.
  intros Hg Hw Hw2 w' key doc doc'.
  destruct (handle_new_chat_members_written u w Hg Hw)
    as (Hf & _ & _ & _ & Hc).
  fold w' in Hf, Hc. fold key doc in Hf.
  assert (Hload : doc' = dict_set key (chat_title u) doc).
  { subst doc'. unfold eval at 1. by rewrite (load_chats_stored w' _ Hf). }
  split. { intros Hnd. rewrite Hload. by apply dict_set_NoDup. }
  split. { intros [old Hold]. rewrite Hload.
           by apply (dict_set_present key _ old). }
  split. { intros Hnone. rewrite Hload. by apply dict_set_absent. }
  rewrite <- Hc in Hw2.
  destruct (handle_new_chat_members_written u w' Hg Hw2) as (Hf2 & _).
  fold doc' in Hf2. rewrite Hf2, Hf, Hload. fold key.
  by rewrite dict_set_twice.
Qed.
End RegistryProperties.

(** ** Broadcasts and the registry *)

Lemma length_omap_le {A B} (f : A -> option B) (l : list A) :
  (length (omap f l) ≤ length l)%nat.
Proof.
  induction l as [|x l IH]; [done|]. cbn [omap list_omap].
  destruct (f x); simpl; lia.
Qed.

Lemma pass_allocation_length chats (q : list LinkRecord) :
  (length (pass_allocation chats q) ≤ length chats `min` length q)%nat.
Proof.
  unfold pass_allocation.
  etrans; [apply length_omap_le|]. by rewrite length_zip_with.
Qed.

Lemma pass_allocation_elem chats (q : list LinkRecord) m :
  m ∈ pass_allocation chats q ->
  ∃ i title deal,
    chats !! i = Some (m.1, title) ∧ q !! i = Some deal
    ∧ deal_message deal = Some m.2.
Proof.
  unfold pass_allocation. intros Hm.
  apply list_elem_of_omap in Hm as ([[chat title] deal] & Hin & Hf).
  apply list_elem_of_lookup in Hin as [i Hi].
  apply lookup_zip_with_Some in Hi as (c & d & Heq & Hc & Hd).
  injection Heq as Hc' Hd'. subst c d. simpl in Hf.
  destruct (deal_message deal) as [text|] eqn:Hmsg; [|done].
  simpl in Hf. injection Hf as <-. by exists i, title, deal.
Qed.

Lemma get_chats_unparsable w doc key title :
  chats_file w = Stored doc ->
  (key, title) ∈ doc ->
  py_int key = None ->
  eval get_chats w = None.
Proof.
  intros Hf Hin Hkey. rewrite get_chats_eval.
  unfold eval. rewrite (load_chats_stored w doc Hf). simpl.
  destruct (mapM _ doc) as [cs|] eqn:Hm; [|done].
  apply mapM_Some in Hm.
  apply list_elem_of_lookup in Hin as [i Hi].
  destruct (Forall2_lookup_l _ _ _ _ _ Hm Hi) as (c & _ & Hc).
  simpl in Hc. by rewrite Hkey in Hc.
Qed.

Lemma get_chats_exec w :
  exec get_chats w = w
  ∨ (eval get_chats w = Some [] ∧ exec get_chats w = add_log ErrorLoadingChats w).
Proof.
  unfold get_chats, load_chats. run.
  destruct (chats_file w); simpl; auto.
Qed.

Section BroadcastProperties.
Context (env : Env).

Lemma publish_private_unfold u w :
  chat_type u = private ->
  exec (handle_publish_command env u) w
  = match eval get_chats w with
    | None =>
        add_reply PublishError
          (add_log ErrorSendingToAllGroups (exec get_chats w))
    | Some [] => add_reply NoActiveGroups (exec get_chats w)
    | Some (c :: cs) =>
        add_reply SentToAllGroups
          (exec (send_real_deals_to_all env (c :: cs)) (exec get_chats w))
    end.
Proof.
  intros Hp. unfold handle_publish_command. rewrite Hp. simpl.
  rewrite exec_bind.
  destruct (eval get_chats w) as [[|c cs]|]; try done.
  by rewrite exec_bind.
Qed.

Lemma scheduled_deals_unfold w :
  exec (scheduled_deals env) w
  = match eval get_chats w with
    | None => add_log ErrorInScheduledDeals (exec get_chats w)
    | Some [] => add_log NoChatsForScheduledDeals (exec get_chats w)
    | Some (c :: cs) =>
        add_log ScheduledDealsSent
          (exec (send_real_deals_to_all env (c :: cs)) (exec get_chats w))
    end.
Proof.
  unfold scheduled_deals. rewrite exec_bind.
  destruct (eval get_chats w) as [[|c cs]|]; try done.
  by rewrite exec_bind.
Qed.

Lemma send_real_deal_frame w chat title :
  let w' := exec (send_real_deal_to_chat env chat title) w in
  replies w' = replies w ∧ chats_file w' = chats_file w.
Proof.
  intros w'. subst w'. destruct (link_queue w) as [|deal rest] eqn:Hq.
  - by rewrite (send_real_deal_nil env w chat title Hq).
  - rewrite (send_real_deal_cons env w chat title deal rest Hq).
    destruct (save_links_frame env (set_link_queue rest w))
      as (_ & Hc & _ & Hr & _).
    destruct (deal_message deal); [|done].
    by destruct (send_message_ok env _).
Qed.

Lemma pass_frame chats w :
  replies (exec (send_real_deals_to_all env chats) w) = replies w
  ∧ chats_file (exec (send_real_deals_to_all env chats) w) = chats_file w.
Proof.
  revert w. induction chats as [|[chat title] chats IH]; intros w; [done|].
  rewrite send_real_deals_to_all_cons.
  destruct (IH (exec (send_real_deal_to_chat env chat title) w)) as [-> ->].
  apply send_real_deal_frame.
Qed.

Lemma pass_all_refused chats w :
  (∀ n, send_message_ok env n = false) ->
  sent (exec (send_real_deals_to_all env chats) w) = sent w.
Proof.
  intros Hno. revert w.
  induction chats as [|[chat title] chats IH]; intros w; [done|].
  rewrite send_real_deals_to_all_cons, IH.
  destruct (link_queue w) as [|deal rest] eqn:Hq.
  - by rewrite (send_real_deal_nil env w chat title Hq).
  - rewrite (send_real_deal_cons env w chat title deal rest Hq).
    destruct (save_links_frame env (set_link_queue rest w))
      as (_ & _ & Hs & _).
    destruct (deal_message deal); [|done]. by rewrite Hno.
Qed.

(** X4.  A broadcast needs a registry it can read.  When [get_chats]
    fails (one key of the registry document that [int] does not accept
    is enough) or finds no chat, [/publish] from a private chat and the
    scheduled job take no link from the queue, send nothing and make no
    external call; [/publish] answers with the error text in the first
    case and with the no-active-groups text in the second. *)
Theorem broadcast_needs_a_readable_registry (u : Update) (w : World) :
  chat_type u = private ->
  eval get_chats w = None ∨ eval get_chats w = Some [] ->
  let w1 := exec (handle_publish_command env u) w in
  let w2 := exec (scheduled_deals env) w in
  (link_queue w1 = link_queue w ∧ links_file w1 = links_file w
   ∧ sent w1 = sent w ∧ clock w1 = clock w)
  ∧ (link_queue w2 = link_queue w ∧ links_file w2 = links_file w
     ∧ sent w2 = sent w ∧ clock w2 = clock w)
  ∧ (eval get_chats w = None -> last (replies w1) = Some PublishError)
  ∧ (eval get_chats w = Some [] -> last (replies w1) = Some NoActiveGroups)
  ∧ (∀ doc key title,
       chats_file w = Stored doc -> (key, title) ∈ doc ->
       py_int key = None -> eval get_chats w = None).
Proof.
  intros Hp Hreg w1 w2. subst w1 w2.
  rewrite (publish_private_unfold u w Hp), scheduled_deals_unfold.
  assert (Hframe : link_queue (exec get_chats w) = link_queue w
                   ∧ links_file (exec get_chats w) = links_file w
                   ∧ sent (exec get_chats w) = sent w
                   ∧ clock (exec get_chats w) = clock w).
  { by destruct (get_chats_exec w) as [-> | [_ ->]]. }
  split. { destruct Hreg as [-> | ->]; exact Hframe. }
  split. { destruct Hreg as [-> | ->]; exact Hframe. }
  split. { intros ->. apply last_snoc. }
  split. { intros ->. apply last_snoc. }
  apply get_chats_unparsable.
Qed.

(** X5.  The scheduled job and [/publish] from a private chat run the
    same broadcast: from the same state they leave the same queue, the
    same two documents, the same messages sent and the same number of
    external calls.  When the registry lists the chats [cs], both leave
    the queue without its first [length cs] links. *)
Theorem timer_and_manual_publish_agree (u : Update) (w : World) :
  chat_type u = private ->
  let w1 := exec (handle_publish_command env u) w in
  let w2 := exec (scheduled_deals env) w in
  link_queue w1 = link_queue w2
  ∧ links_file w1 = links_file w2
  ∧ chats_file w1 = chats_file w2
  ∧ sent w1 = sent w2
  ∧ clock w1 = clock w2
  ∧ (∀ cs, eval get_chats w = Some cs ->
           link_queue w1 = drop (length cs) (link_queue w)).
Proof.
  intros Hp w1 w2. subst w1 w2.
  rewrite (publish_private_unfold u w Hp), scheduled_deals_unfold.
  assert (Hq0 : link_queue (exec get_chats w) = link_queue w).
  { by destruct (get_chats_exec w) as [-> | [_ ->]]. }
  destruct (eval get_chats w) as [[|c cs]|]; repeat split; try done.
  - intros cs' [= <-]. by rewrite drop_0.
  - intros cs' [= <-]. unfold add_reply. cbn [link_queue].
    by rewrite pass_queue, Hq0.
Qed.

(** X6.  What a pass can deliver.  The messages a pass adds to those
    sent are no more than the chats and no more than the queued links;
    together with the links left in the queue they never exceed the links
    there were; and each of them goes to a chat of the pass, the i-th of
    them, and carries the text of the i-th link of the queue. *)
Theorem pass_delivers_queued_links_to_listed_chats
    (w : World) (chats : list (Z * string)) :
  let w' := exec (send_real_deals_to_all env chats) w in
  ∃ delivered,
    sent w' = sent w ++ delivered
    ∧ (length delivered ≤ length chats)%nat
    ∧ (length delivered + length (link_queue w') ≤ length (link_queue w))%nat
    ∧ ∀ m, m ∈ delivered ->
        ∃ i title deal,
          chats !! i = Some (m.1, title)
          ∧ link_queue w !! i = Some deal
          ∧ deal_message deal = Some m.2.
Proof.
  intros w'. subst w'.
  destruct (pass_sent env chats w) as (delivered & Hs & Hsub & _).
  exists delivered. split; [exact Hs|].
  pose proof (sublist_length _ _ Hsub) as Hlen.
  pose proof (pass_allocation_length chats (link_queue w)) as Hmax.
  split; [lia|]. split.
  - rewrite pass_queue, length_drop. lia.
  - intros m Hm. apply pass_allocation_elem.
    by apply (elem_of_sublist _ _ _ Hm Hsub).
Qed.

(** X7.  [/publish] from a private chat answers that the links were sent
    to all groups whenever the registry lists at least one chat, whatever
    was delivered: it does so with an empty queue, when nothing is sent,
    and when Telegram refuses every message. *)
Theorem publish_reports_success_whatever_was_sent
    (u : Update) (w : World) (cs : list (Z * string)) :
  chat_type u = private ->
  eval get_chats w = Some cs ->
  cs ≠ [] ->
  let w' := exec (handle_publish_command env u) w in
  replies w' = replies w ++ [SentToAllGroups]
  ∧ (link_queue w = [] -> sent w' = sent w)
  ∧ ((∀ n, send_message_ok env n = false) -> sent w' = sent w).
Proof.
  intros Hp Hcs Hne w'. subst w'.
  rewrite (publish_private_unfold u w Hp), Hcs.
  destruct cs as [|c cs]; [done|].
  assert (Hw0 : exec get_chats w = w).
  { destruct (get_chats_exec w) as [-> | [He _]]; [done|].
    by rewrite Hcs in He. }
  rewrite Hw0. unfold add_reply. cbn [replies sent].
  destruct (pass_frame (c :: cs) w) as [-> _].
  split; [done|]. split.
  - intros Hq. by destruct (pass_on_empty_queue env (c :: cs) w Hq).
  - intros Hno. by apply pass_all_refused.
Qed.
End BroadcastProperties.


(** ** Product identifiers *)

Lemma append_assoc (a b c : string) : (a +:+ b) +:+ c = a +:+ b +:+ c.
Proof.
  induction a as [|x a IH]; [done|].
  change (String x ((a +:+ b) +:+ c) = String x (a +:+ b +:+ c)).
  by f_equal.
Qed.

Lemma strip_prefix_app p r : strip_prefix p (p +:+ r) = Some r.
Proof.
  induction p as [|a p IH]; simpl; [by destruct r|].
  by rewrite Ascii.eqb_refl.
Qed.

Lemma strip_prefix_Some p s r : strip_prefix p s = Some r -> s = p +:+ r.
Proof.
  revert s. induction p as [|a p IH]; intros s; simpl.
  - destruct s; by intros [= <-].
  - destruct s as [|b s]; [done|].
    destruct (Ascii.eqb a b) eqn:Hab; [|done].
    apply Ascii.eqb_eq in Hab as ->. intros H. by rewrite (IH s H).
Qed.

(** *** Decoding *)

Ltac decode_cases :=
  unfold decode_one;
  repeat match goal with
    | |- context [match ?x with _ => _ end] =>
        lazymatch x with
        | context [match _ with _ => _ end] => fail
        | _ => destruct x eqn:?
        end
    end.

Lemma decode_one_split s cp enc rest :
  decode_one s = Some (cp, enc, rest) ->
  s = enc +:+ rest ∧ (String.length rest < String.length s)%nat.
Proof.
  destruct s as [|a [|a1 [|a2 [|a3 s4]]]]; decode_cases;
    intros H; simplify_eq; split; (reflexivity || (simpl; lia)).
Qed.

Lemma decode_one_independent s cp enc rest t :
  decode_one s = Some (Some cp, enc, rest) ->
  decode_one (enc +:+ t) = Some (Some cp, enc, t).
Proof.
  intros H. destruct s as [|a [|a1 [|a2 [|a3 s4]]]];
    unfold decode_one in H;
    repeat match type of H with
      | context [match ?x with _ => _ end] =>
          lazymatch x with
          | context [match _ with _ => _ end] => fail
          | _ => destruct x eqn:?
          end
      end;
    simplify_eq;
    match goal with
    | |- decode_one (?e +:+ ?u) = _ =>
        let e' := eval cbv [String.append] in (e +:+ u) in
        change (e +:+ u) with e'
    end;
    unfold decode_one;
    repeat match goal with
      | H : ?x = _ |- context [?x] => rewrite H
      end;
    reflexivity.
Qed.

Lemma code_points_upto_enough (n m : nat) s :
  (String.length s ≤ n)%nat -> (String.length s ≤ m)%nat ->
  code_points_upto n s = code_points_upto m s.
Proof.
  revert m s. induction n as [|n IH]; intros m s Hn Hm.
  - destruct s; [|simpl in Hn; lia]. by destruct m.
  - destruct m as [|m].
    + destruct s; [done|simpl in Hm; lia].
    + cbn [code_points_upto].
      destruct (decode_one s) as [[[cp enc] rest]|] eqn:Hd; [|done].
      destruct (decode_one_split s cp enc rest Hd) as [_ Hlen].
      f_equal. apply IH; lia.
Qed.

Lemma code_points_unfold s :
  code_points s
  = match decode_one s with
    | None => []
    | Some (cp, enc, rest) => (cp, enc) :: code_points rest
    end.
Proof.
  unfold code_points. destruct s as [|a s]; [done|].
  cbn [String.length code_points_upto].
  destruct (decode_one (String a s)) as [[[cp enc] rest]|] eqn:Hd; [|done].
  destruct (decode_one_split _ cp enc rest Hd) as [_ Hlen].
  f_equal. apply code_points_upto_enough; simpl in Hlen; lia.
Qed.

Lemma leading_digits_unfold s :
  leading_digits s
  = match decode_one s with
    | Some (Some cp, enc, rest) =>
        match decimal_value cp with
        | Some _ => enc +:+ leading_digits rest
        | None => ""
        end
    | _ => ""
    end.
Proof.
  unfold leading_digits. rewrite code_points_unfold.
  by destruct (decode_one s) as [[[[cp|] enc] rest]|].
Qed.

Lemma all_digits_unfold s :
  all_digits s
  = match decode_one s with
    | None => true
    | Some (cp, enc, rest) =>
        match cp with
        | Some c => bool_decide (is_Some (decimal_value c))
        | None => false
        end && all_digits rest
    end.
Proof.
  unfold all_digits. rewrite code_points_unfold.
  by destruct (decode_one s) as [[[cp enc] rest]|].
Qed.

Lemma digit_value_decimal (c : ascii) (d : Z) :
  digit_value c = Some d ->
  (N_of_ascii c <? 127)%N = true
  ∧ decimal_value (N_of_ascii c) = Some d.
Proof.
  unfold digit_value. intros H. case_bool_decide as Hr; [|done].
  injection H as <-. split; [apply N.ltb_lt; lia|].
  unfold decimal_value, decimal_zeros. cbn [List.find].
  assert (Ht : ((48 <=? N_of_ascii c)%N && (N_of_ascii c <? 48 + 10)%N)
               = true).
  { apply andb_true_iff. rewrite N.leb_le, N.ltb_lt. lia. }
  rewrite Ht. simpl. f_equal. lia.
Qed.

(** *** The digits a string starts with *)

Lemma leading_digits_split s :
  ∃ r, s = leading_digits s +:+ r
       ∧ leading_digits r = ""
       ∧ all_digits (leading_digits s) = true.
Proof.
  remember (String.length s) as n eqn:Hn. revert s Hn.
  induction (lt_wf n) as [n _ IH]. intros s ->.
  rewrite (leading_digits_unfold s).
  destruct (decode_one s) as [[[[cp|] enc] rest]|] eqn:Hd.
  - destruct (decimal_value cp) as [d|] eqn:Hv.
    + destruct (decode_one_split s _ enc rest Hd) as [Hs Hlen].
      destruct (IH _ Hlen rest eq_refl) as (r & Hrest & Hr & Hall).
      exists r. split; [by rewrite append_assoc, <- Hrest|].
      split; [exact Hr|].
      rewrite all_digits_unfold,
        (decode_one_independent s cp enc rest _ Hd), Hv, Hall.
      by rewrite bool_decide_true by by eexists.
    + exists s. split; [done|]. split; [|done].
      by rewrite leading_digits_unfold, Hd, Hv.
  - exists s. split; [done|]. split; [|done].
    by rewrite leading_digits_unfold, Hd.
  - exists s. split; [done|]. split; [|done].
    by rewrite leading_digits_unfold, Hd.
Qed.

Lemma leading_digits_ascii_digit c r :
  is_Some (digit_value c) -> leading_digits (String c r) ≠ "".
Proof.
  intros [d Hc]. destruct (digit_value_decimal c d Hc) as [Hp Hv].
  by rewrite leading_digits_unfold, (decode_one_plain c r Hp), Hv.
Qed.

Lemma decode_one_None s : decode_one s = None -> s = "".
Proof. destruct s as [|a s]; [done|]. decode_cases; done. Qed.

Lemma all_digits_leading d r :
  d ≠ "" -> all_digits d = true -> leading_digits (d +:+ r) ≠ "".
Proof.
  intros Hne Hd. rewrite all_digits_unfold in Hd.
  destruct (decode_one d) as [[[[cp|] enc] rest]|] eqn:Hdec.
  - destruct (decode_one_split _ _ _ _ Hdec) as [Hs Hlen].
    apply andb_true_iff in Hd as [Hv _].
    apply bool_decide_eq_true in Hv as [v Hv].
    rewrite Hs, append_assoc, leading_digits_unfold,
      (decode_one_independent _ cp enc rest _ Hdec), Hv.
    destruct enc; [|done]. change ("" +:+ rest) with rest in Hs.
    subst. lia.
  - by apply andb_true_iff in Hd as [? _].
  - by apply decode_one_None in Hdec.
Qed.

Lemma match_item_id_Some s d :
  match_item_id s = Some d ->
  d ≠ "" ∧ all_digits d = true
  ∧ ∃ r, s = "item/" +:+ d +:+ r ∧ leading_digits r = "".
Proof.
  unfold match_item_id. intros H.
  destruct (strip_prefix "item/" s) as [rest|] eqn:Hp; [|done].
  simpl in H. apply strip_prefix_Some in Hp.
  destruct (leading_digits_split rest) as (r & Hrest & Hr & Hd).
  destruct (leading_digits rest) as [|c ds] eqn:Hl; [done|].
  injection H as <-. split; [done|]. split; [done|].
  exists r. split; [|done]. by rewrite Hp, Hrest.
Qed.

Lemma search_item_id_sound s d :
  search_item_id s = Some d ->
  d ≠ "" ∧ all_digits d = true
  ∧ ∃ p r, s = p +:+ "item/" +:+ d +:+ r ∧ leading_digits r = "".
Proof.
  induction s as [|a s IH]; rewrite search_item_id_unfold.
  - destruct (match_item_id "") eqn:Hm; [|done]. by vm_compute in Hm.
  - destruct (match_item_id (String a s)) as [ds|] eqn:Hm.
    + intros [= ->].
      destruct (match_item_id_Some _ _ Hm) as (Hne & Hd & r & Hs & Hr).
      split; [done|]. split; [done|]. by exists "", r.
    + intros H. destruct (IH H) as (Hne & Hd & p & r & Hs & Hr).
      split; [done|]. split; [done|]. exists (String a p), r.
      split; [|done].
      change (String a s = String a (p +:+ "item/" +:+ d +:+ r)).
      by f_equal.
Qed.

Lemma search_item_id_complete p r :
  leading_digits r ≠ "" ->
  is_Some (search_item_id (p +:+ "item/" +:+ r)).
Proof.
  intros Hr. induction p as [|a p IH].
  - rewrite search_item_id_unfold. unfold match_item_id.
    change ("" +:+ "item/" +:+ r) with ("item/" +:+ r).
    rewrite strip_prefix_app. simpl. by destruct (leading_digits r).
  - rewrite search_item_id_unfold.
    destruct (match_item_id _); [done|]. exact IH.
Qed.

(** X8.  What [re.search(r'item/(\d+)', url)] gives [extract_product_id].
    A product identifier that is found is never empty, is made of
    decimal digits only (those of Unicode, as [\d] has them), and stands
    in the URL right after an occurrence of [item/], running up to the
    first character that is not a decimal digit.  None is found exactly
    when the URL has no [item/] followed by a decimal digit; an ASCII
    digit after [item/] is always enough. *)
Theorem product_id_is_the_digits_after_item (s : string) :
  (∀ d, search_item_id s = Some d ->
        d ≠ "" ∧ all_digits d = true
        ∧ ∃ p r, s = p +:+ "item/" +:+ d +:+ r ∧ leading_digits r = "")
  ∧ (search_item_id s = None <->
     ¬ ∃ p r, s = p +:+ "item/" +:+ r ∧ leading_digits r ≠ "")
  ∧ (∀ p c r, s = p +:+ "item/" +:+ String c r ->
              is_Some (digit_value c) -> is_Some (search_item_id s)).
Proof.
  split; [apply search_item_id_sound|]. split; [split|].
  - intros Hnone (p & r & -> & Hr).
    destruct (search_item_id_complete p r Hr) as [d Hd]. congruence.
  - intros Hno. destruct (search_item_id s) as [d|] eqn:Hs; [|done].
    destruct (search_item_id_sound s d Hs)
      as (Hne & Hd & p & r & -> & Hr).
    destruct Hno. exists p, (d +:+ r). split; [done|].
    by apply all_digits_leading.
  - intros p c r -> Hc. apply search_item_id_complete.
    by apply leading_digits_ascii_digit.
Qed.

(** ** More on [/updatelink] *)

Lemma dict_update_idemp (fields r : LinkRecord) :
  dict_update fields (dict_update fields r) = dict_update fields r.
Proof.
  unfold dict_update. apply map_eq. intros k. rewrite !lookup_union.
  by destruct (fields !! k), (r !! k).
Qed.




Section AuthoringProperties.
Context (env : Env).

(** What [/updatelink] does to the queue is decided by the command and by
    the length of the queue alone. *)
Lemma handle_update_link_effect u (n : nat) :
  (∀ w, length (link_queue w) = n ->
        link_queue (exec (handle_update_link env u) w) = link_queue w
        ∧ links_file (exec (handle_update_link env u) w) = links_file w
        ∧ clock (exec (handle_update_link env u) w) = clock w)
  ∨ (chat_type u = private
     ∧ ∃ a0 a1 a2 a3 a4 more position,
         args u = a0 :: a1 :: a2 :: a3 :: a4 :: more
         ∧ py_int a0 = Some position
         ∧ (1 ≤ position ≤ Z.of_nat n)%Z
         ∧ ∀ w, length (link_queue w) = n ->
             exec (handle_update_link env u) w
             = add_reply
                 (LinkUpdated a1 ("₪" +:+ a2) ("₪" +:+ a3) (a4 +:+ "%"))
                 (exec (update_at env (Z.to_nat (position - 1))
                          (update_fields a1 ("₪" +:+ a2) ("₪" +:+ a3)
                             (a4 +:+ "%"))) w)).
Proof.
  destruct (chat_type u) eqn:Hct;
    try (left; intros w _; unfold handle_update_link; by rewrite Hct).
  destruct (args u) as [|a0 [|a1 [|a2 [|a3 [|a4 more]]]]] eqn:Ha;
    try (left; intros w _; unfold handle_update_link; by rewrite Hct, Ha).
  destruct (py_int a0) as [position|] eqn:Hi.
  - destruct (decide (1 ≤ position ≤ Z.of_nat n)%Z) as [Hr|Hr].
    + right. split; [done|]. exists a0, a1, a2, a3, a4, more, position.
      repeat split; try done; try lia. intros w Hlen.
      apply (handle_update_link_in_range env u w a0 a1 a2 a3 a4 more);
        try done. by rewrite Hlen.
    + left. intros w Hlen.
      rewrite (handle_update_link_out_of_range env u w a0 a1 a2 a3 a4 more
                 position); try done. rewrite Hlen. lia.
  - left. intros w _. unfold handle_update_link. by rewrite Hct, Ha, Hi.
Qed.

(** X9.  [/updatelink] changes the queue only on a valid command.  It
    never changes the number of queued links.  If the queue is different
    afterwards, the command came from a private chat with at least five
    arguments, the first of which [int] reads as a position between 1
    and the length of the queue.  With fewer than five arguments it
    answers with the usage text and does nothing else; with a first
    argument that [int] rejects it logs the error, answers with the
    error text, and does nothing else. *)
Theorem update_link_changes_the_queue_only_when_valid
    (u : Update) (w : World) :
  let w' := exec (handle_update_link env u) w in
  length (link_queue w') = length (link_queue w)
  ∧ (link_queue w' ≠ link_queue w ->
     chat_type u = private
     ∧ ∃ a0 a1 a2 a3 a4 more position,
         args u = a0 :: a1 :: a2 :: a3 :: a4 :: more
         ∧ py_int a0 = Some position
         ∧ (1 ≤ position ≤ Z.of_nat (length (link_queue w)))%Z)
  ∧ (chat_type u = private -> (length (args u) < 5)%nat ->
     w' = add_reply UpdateLinkUsage w)
  ∧ (chat_type u = private -> (5 ≤ length (args u))%nat ->
     head (args u) ≫= py_int = None ->
     w' = add_reply UpdateLinkError (add_log ErrorUpdatingLink w)).
Proof.
  intros w'. subst w'.
  destruct (handle_update_link_effect u (length (link_queue w)))
    as [Hsame|(Hp & a0 & a1 & a2 & a3 & a4 & more & p & Ha & Hi & Hr & Hw)].
  - destruct (Hsame w eq_refl) as (Hq & _). rewrite Hq.
    split; [done|]. split; [done|].
    unfold handle_update_link. split.
    + intros -> Hlen.
      by destruct (args u) as [|? [|? [|? [|? [|? ?]]]]];
        simpl in Hlen; try lia.
    + intros -> Hlen Hhead.
      destruct (args u) as [|a0 [|a1 [|a2 [|a3 [|a4 more]]]]];
        simpl in Hlen; try lia.
      simpl in Hhead. by rewrite Hhead.
  - rewrite (Hw w eq_refl). unfold add_reply. cbn [link_queue].
    rewrite update_at_queue, length_alter.
    split; [done|]. split.
    { intros _. split; [done|]. by exists a0, a1, a2, a3, a4, more, p. }
    split.
    + intros _ Hlen. rewrite Ha in Hlen. simpl in Hlen. lia.
    + intros _ _ Hhead. rewrite Ha in Hhead. simpl in Hhead. congruence.
Qed.

(** X10.  Sending the same [/updatelink] command twice leaves the queue
    as sending it once does. *)
Theorem update_link_twice_is_once (u : Update) (w : World) :
  let w1 := exec (handle_update_link env u) w in
  let w2 := exec (handle_update_link env u) w1 in
  link_queue w2 = link_queue w1.
Proof.
  intros w1 w2. subst w1 w2.
  destruct (handle_update_link_effect u (length (link_queue w)))
    as [Hsame|(Hp & a0 & a1 & a2 & a3 & a4 & more & p & Ha & Hi & Hr & Hw)].
  - destruct (Hsame w eq_refl) as (Hq & _).
    apply Hsame. by rewrite Hq.
  - rewrite (Hw w eq_refl).
    set (w1 := add_reply _ _).
    assert (Hq1 : link_queue w1
                  = alter (dict_update
                             (update_fields a1 ("₪" +:+ a2) ("₪" +:+ a3)
                                (a4 +:+ "%")))
                      (Z.to_nat (p - 1)) (link_queue w)).
    { subst w1. unfold add_reply. cbn [link_queue]. apply update_at_queue. }
    assert (Hlen : length (link_queue w1) = length (link_queue w)).
    { by rewrite Hq1, length_alter. }
    rewrite (Hw w1 Hlen). unfold add_reply at 1. cbn [link_queue].
    rewrite update_at_queue, Hq1, list_alter_alter_eq.
    apply list_alter_ext; [|done]. intros r _. apply dict_update_idemp.
Qed.
End AuthoringProperties.

(** ** Links that can be displayed *)


Section DisplayableLinks.
Context (env : Env).


Lemma clear_queue w : link_queue (exec (clear env) w) = [].
Proof.
  unfold clear. rewrite exec_bind.
  by destruct (save_links_frame env
                 (exec (modify (set_link_queue [])) w)) as [-> _].
Qed.



End DisplayableLinks.

(** ** From [/addlink] to delivery *)


Section LinkLifeCycle.
Context (env : Env).


Lemma new_record_message (title product_id url aff : string) :
  deal_message {[ "title" := title; "product_id" := product_id;
                  "url" := url; "affiliate_link" := aff ]}
  = Some ("🔥 " +:+ title +:+ newline +:+ newline
          +:+ "🛒 קישור למוצר: " +:+ aff).
Proof.
  unfold deal_message. rewrite lookup_insert_eq. simpl.
  by rewrite !lookup_insert_ne, lookup_singleton_eq by done.
Qed.

(** X14.  From [/addlink] to the group.  Starting with an empty queue,
    a link added through [bot_api.py] and then published from a group
    reaches that group, when Telegram accepts the message, as the text
    made of the title and the promotion link, and the queue is empty
    again. *)
Theorem added_link_reaches_the_publishing_group
    (u g : Update) (w : World) (url title product_id aff : string)
    (more : list string) :
  link_queue w = [] ->
  chat_type u = private ->
  args u = url :: more ->
  search_item_id url = Some product_id ->
  (∀ n, product_title env n url = Some title) ->
  (∀ n, promotion_link env n url = Some aff) ->
  aff ≠ "" ->
  chat_type g ≠ private ->
  (∀ n, send_message_ok env n = true) ->
  let w1 := exec (BotApi.handle_add_link env u) w in
  let w2 := exec (handle_publish_command env g) w1 in
  sent w2
  = sent w ++ [(chat_id g, "🔥 " +:+ title +:+ newline +:+ newline
                           +:+ "🛒 קישור למוצר: " +:+ aff)]
  ∧ link_queue w2 = [].
Proof.
  intros Hq Hp Ha Hs Ht Hl Hne Hg Hok w1 w2.
  destruct (api_add_link_appended env u w url more product_id title aff
              Hp Ha Hs Ht Hl Hne) as [[Hq1 _] Hs1].
  fold w1 in Hq1, Hs1. rewrite Hq in Hq1. simpl in Hq1.
  assert (Hw2 : w2 = exec (send_real_deal_to_chat env (chat_id g)
                             (chat_title g)) w1).
  { subst w2. unfold handle_publish_command. by destruct (chat_type g). }
  clearbody w2 w1. rewrite Hw2.
  rewrite (send_real_deal_delivered env w1 _ _ _ [] _ Hq1
             (new_record_message title product_id url aff) (Hok _)).
  destruct (save_links_frame env (set_link_queue [] w1))
    as (Hq' & _ & Hs' & _).
  simpl. rewrite Hs', Hq'. simpl. by rewrite Hs1.
Qed.
End LinkLifeCycle.

(** ** Empty queues and restarts *)

Lemma load_links_eval w :
  eval load_links w
  = match links_file w with
    | Stored doc => doc
    | _ => []
    end.
Proof. unfold load_links. run. by destruct (links_file w). Qed.

Lemma startup_queue w : link_queue (exec startup w) = eval load_links w.
Proof.
  unfold startup. rewrite exec_bind. unfold modify, exec at 1. done.
Qed.

Section EmptyQueueAndRestart.
Context (env : Env).

Lemma publish_on_empty_queue u w :
  link_queue w = [] ->
  sent (exec (handle_publish_command env u) w) = sent w
  ∧ link_queue (exec (handle_publish_command env u) w) = [].
Proof.
  intros Hq.
  assert (H0 : link_queue (exec get_chats w) = []
               ∧ sent (exec get_chats w) = sent w).
  { by destruct (get_chats_exec w) as [-> | [_ ->]]. }
  destruct H0 as [Hq0 Hs0].
  destruct (chat_type u) eqn:Hp;
    try (unfold handle_publish_command; rewrite Hp; simpl;
         by rewrite (send_real_deal_nil env w _ _ Hq)).
  rewrite (publish_private_unfold env u w Hp).
  destruct (eval get_chats w) as [[|c cs]|];
    unfold add_reply, add_log; cbn [sent link_queue]; [done| |done].
  by destruct (pass_on_empty_queue env (c :: cs) _ Hq0) as [-> ->].
Qed.

Lemma scheduled_on_empty_queue w :
  link_queue w = [] ->
  sent (exec (scheduled_deals env) w) = sent w
  ∧ link_queue (exec (scheduled_deals env) w) = [].
Proof.
  intros Hq.
  assert (H0 : link_queue (exec get_chats w) = []
               ∧ sent (exec get_chats w) = sent w).
  { by destruct (get_chats_exec w) as [-> | [_ ->]]. }
  destruct H0 as [Hq0 Hs0].
  rewrite scheduled_deals_unfold.
  destruct (eval get_chats w) as [[|c cs]|];
    unfold add_log; cbn [sent link_queue]; [done| |done].
  by destruct (pass_on_empty_queue env (c :: cs) _ Hq0) as [-> ->].
Qed.

(** X15.  [/clearlinks] from a private chat empties the queue and
    answers that all links were deleted; when the write goes through the
    document holds the empty list.  After it, [/publish] from any chat
    and the scheduled job send nothing and leave the queue empty. *)
Theorem nothing_is_sent_after_clear (u : Update) (w : World) :
  chat_type u = private ->
  let w' := exec (handle_clear_links env u) w in
  link_queue w' = []
  ∧ replies w' = replies w ++ [AllLinksDeleted]
  ∧ (fs_write env (clock w) = Written ->
     links_file w' = Stored [] ∧ eval load_links w' = [])
  ∧ (∀ u', sent (exec (handle_publish_command env u') w') = sent w'
           ∧ link_queue (exec (handle_publish_command env u') w') = [])
  ∧ sent (exec (scheduled_deals env) w') = sent w'
  ∧ link_queue (exec (scheduled_deals env) w') = [].
Proof.
  intros Hp w'.
  assert (Hw : w' = add_reply AllLinksDeleted (exec (clear env) w)).
  { subst w'. unfold handle_clear_links. rewrite Hp. simpl.
    by rewrite exec_bind. }
  assert (Hq : link_queue w' = []).
  { rewrite Hw. unfold add_reply. cbn [link_queue]. apply clear_queue. }
  split; [exact Hq|]. split.
  { rewrite Hw. unfold add_reply, clear. cbn [replies].
    rewrite exec_bind.
    by destruct (save_links_frame env (exec (modify (set_link_queue [])) w))
      as (_ & _ & _ & -> & _). }
  split.
  { intros Hok.
    assert (Hf : links_file w' = Stored []).
    { rewrite Hw. unfold add_reply, clear. cbn [links_file].
      rewrite exec_bind, save_links_file.
      change (clock (exec (modify (set_link_queue [])) w)) with (clock w).
      by rewrite Hok. }
    split; [exact Hf|]. by rewrite load_links_eval, Hf. }
  split. { intros u'. by apply publish_on_empty_queue. }
  by apply scheduled_on_empty_queue.
Qed.

(** X16.  What a restart finds.  The queue with which the bot starts is
    the one [load_links] reads.  After [save_links], and so after every
    operation that ends with it, a restart gives back the queue that was
    in memory when the write went through; the queue of the document as
    it was when the file could not be opened; and the empty queue when
    the dump failed, since the document is then unreadable.  A link
    enqueued while the file cannot be opened is thus lost by a restart. *)
Theorem restart_gives_back_what_was_written (w : World) :
  let after_restart w0 := link_queue (exec startup w0) in
  after_restart (exec (save_links env) w)
  = match fs_write env (clock w) with
    | Written => link_queue w
    | OpenFailed => eval load_links w
    | DumpFailed => []
    end
  ∧ (∀ r, after_restart (exec (enqueue env r) w)
          = match fs_write env (clock w) with
            | Written => link_queue w ++ [r]
            | OpenFailed => eval load_links w
            | DumpFailed => []
            end)
  ∧ (links_file w = Stored (link_queue w) -> after_restart w = link_queue w)
  ∧ (links_file w = Missing ∨ links_file w = Unreadable ->
     after_restart w = []).
Proof.
  intros after_restart. subst after_restart. cbv beta.
  rewrite !startup_queue, !load_links_eval.
  split. { rewrite save_links_file. by destruct (fs_write env (clock w)). }
  split.
  { intros r. rewrite startup_queue, load_links_eval.
    unfold enqueue, save_links. run.
    by destruct (fs_write env (clock w)). }
  split. { by intros ->. }
  by intros [-> | ->].
Qed.
End EmptyQueueAndRestart.

(** ** The further properties at concrete inputs *)

(** X2 when the bot joins the group G7, with G1 and G2 on file. *)
Lemma new_group_is_registered_witness :
  let w := world_with [deal_A] in
  let u := from_group [] in
  let w' := exec (handle_new_chat_members steady u) w in
  fs_write steady (clock w) = Written
  ∧ chats_file w'
    = Stored (dict_set (pretty (chat_id u)) "G7" [("1", "G1"); ("2", "G2")])
  ∧ dict_get (pretty (chat_id u)) (eval load_chats w') = Some "G7"
  ∧ link_queue w' = [deal_A].
Proof.
  intros w u w'. split; [reflexivity|].
  destruct (new_group_is_registered steady u w (or_introl eq_refl) eq_refl)
    as (H1 & H2 & _ & _ & _ & H6 & _).
  split; [exact H1|]. split; [exact H2|exact H6].
Defined.

(** X3 when G1, already on file, is registered again under a new
    title. *)
Lemma registration_keeps_a_dictionary_witness :
  let w := world_with [] in
  let u := mkUpdate supergroup 1 "G1 renamed" [] in
  let w' := exec (handle_new_chat_members steady u) w in
  fs_write steady (S (clock w)) = Written
  ∧ (eval load_chats w').*1 = ["1"; "2"]
  ∧ chats_file (exec (handle_new_chat_members steady u) w') = chats_file w'.
Proof.
  intros w u w'. split; [reflexivity|].
  destruct (registration_keeps_a_dictionary steady u w
              (or_intror eq_refl) eq_refl eq_refl) as (_ & H2 & _ & H4).
  split; [|exact H4]. apply H2. exists "G1". vm_compute; reflexivity.
Defined.

(** X4 with a registry whose only key is not an integer. *)
Lemma broadcast_needs_a_readable_registry_witness :
  let w := mkWorld [deal_A] (Stored [deal_A]) (Stored [("group", "G")])
             [] [] [] 0 in
  let w1 := exec (handle_publish_command steady (from_private [])) w in
  eval get_chats w = None
  ∧ link_queue w1 = [deal_A]
  ∧ sent w1 = []
  ∧ last (replies w1) = Some PublishError.
Proof.
  intros w w1.
  assert (Hnone : eval get_chats w = None) by (vm_compute; reflexivity).
  split; [exact Hnone|].
  destruct (broadcast_needs_a_readable_registry steady (from_private []) w
              eq_refl (or_introl Hnone))
    as ((Hq & _ & Hs & _) & _ & Hr & _).
  split; [exact Hq|]. split; [exact Hs|exact (Hr Hnone)].
Defined.

(** X5 with A and B queued and G1, G2 on file. *)
Lemma timer_and_manual_publish_agree_witness :
  let w := world_with [deal_A; deal_B] in
  let w1 := exec (handle_publish_command steady (from_private [])) w in
  let w2 := exec (scheduled_deals steady) w in
  chat_type (from_private []) = private
  ∧ link_queue w1 = link_queue w2
  ∧ sent w1 = sent w2
  ∧ link_queue w1 = [].
Proof.
  intros w w1 w2. split; [reflexivity|].
  destruct (timer_and_manual_publish_agree steady (from_private []) w eq_refl)
    as (Hq & _ & _ & Hs & _ & Hd).
  split; [exact Hq|]. split; [exact Hs|].
  apply (Hd [(1%Z, "G1"); (2%Z, "G2")]). vm_compute; reflexivity.
Defined.

(** X6 with one link for two chats. *)
Lemma pass_delivers_queued_links_to_listed_chats_witness :
  let w := world_with [deal_A] in
  let w' := exec (send_real_deals_to_all steady
                    [(1%Z, "G1"); (2%Z, "G2")]) w in
  ∃ delivered,
    sent w' = delivered
    ∧ (length delivered + length (link_queue w') ≤ 1)%nat.
Proof.
  intros w w'.
  destruct (pass_delivers_queued_links_to_listed_chats steady w
              [(1%Z, "G1"); (2%Z, "G2")]) as (delivered & Hs & _ & Hl & _).
  exists delivered. split; [exact Hs|exact Hl].
Defined.

(** X7 with an empty queue and two chats on file. *)
Lemma publish_reports_success_whatever_was_sent_witness :
  let w := world_with [] in
  let w' := exec (handle_publish_command steady (from_private [])) w in
  eval get_chats w = Some [(1%Z, "G1"); (2%Z, "G2")]
  ∧ replies w' = [SentToAllGroups]
  ∧ sent w' = [].
Proof.
  intros w w'.
  assert (Hcs : eval get_chats w = Some [(1%Z, "G1"); (2%Z, "G2")])
    by (vm_compute; reflexivity).
  split; [exact Hcs|].
  destruct (publish_reports_success_whatever_was_sent steady
              (from_private []) w _ eq_refl Hcs) as (Hr & Hs & _).
  { discriminate. }
  split; [exact Hr|]. apply Hs. reflexivity.
Defined.

(** X8 at the URL of the usage text of [/addlink], and at a URL whose
    identifier has an Arabic-Indic digit. *)
Lemma product_id_is_the_digits_after_item_witness :
  let url := "https://www.aliexpress.com/item/1005005051234567.html" in
  let url' := "https://www.aliexpress.com/item/12٣4.html" in
  search_item_id url = Some "1005005051234567"
  ∧ all_digits "1005005051234567" = true
  ∧ (∃ p r, url = p +:+ "item/" +:+ "1005005051234567" +:+ r
            ∧ leading_digits r = "")
  ∧ search_item_id url' = Some "12٣4"
  ∧ all_digits "12٣4" = true
  ∧ is_Some (search_item_id url').
Proof.
  intros url url'.
  assert (Hs : search_item_id url = Some "1005005051234567")
    by (vm_compute; reflexivity).
  assert (Hs' : search_item_id url' = Some "12٣4")
    by (vm_compute; reflexivity).
  split; [exact Hs|].
  destruct (product_id_is_the_digits_after_item url) as [H _].
  destruct (H "1005005051234567" Hs) as (_ & Hd & Hp).
  split; [exact Hd|]. split; [exact Hp|]. split; [exact Hs'|].
  destruct (product_id_is_the_digits_after_item url') as (H' & _ & Ha).
  destruct (H' "12٣4" Hs') as (_ & Hd' & _).
  split; [exact Hd'|].
  apply (Ha "https://www.aliexpress.com/" "1"%char "2٣4.html");
    [reflexivity|].
  eexists. vm_compute. reflexivity.
Defined.

(** X9 with a first argument that is not a number. *)
Lemma update_link_changes_the_queue_only_when_valid_witness :
  let w := world_with [deal_A] in
  let u := from_private ["first"; "Gadget"; "49.99"; "199.99"; "75"] in
  let w' := exec (handle_update_link steady u) w in
  head (args u) ≫= py_int = None
  ∧ w' = add_reply UpdateLinkError (add_log ErrorUpdatingLink w)
  ∧ length (link_queue w') = 1%nat.
Proof.
  intros w u w'.
  assert (Hn : head (args u) ≫= py_int = None) by (vm_compute; reflexivity).
  split; [exact Hn|].
  destruct (update_link_changes_the_queue_only_when_valid steady u w)
    as (Hlen & _ & _ & Herr).
  split; [|exact Hlen]. apply Herr; [reflexivity|simpl; lia|exact Hn].
Defined.



(** X14 from a fresh start. *)
Lemma added_link_reaches_the_publishing_group_witness :
  let url := "https://www.aliexpress.com/item/1001.html" in
  let w1 := exec (BotApi.handle_add_link steady (from_private [url]))
              fresh_world in
  let w2 := exec (handle_publish_command steady (from_group [])) w1 in
  chat_type (from_group []) ≠ private
  ∧ sent w2
    = [((-1007)%Z, "🔥 Gadget" +:+ newline +:+ newline
          +:+ "🛒 קישור למוצר: https://s.click.aliexpress.com/e/_abc")]
  ∧ link_queue w2 = [].
Proof.
  intros url w1 w2.
  assert (Hg : chat_type (from_group []) ≠ private) by discriminate.
  split; [exact Hg|].
  apply (added_link_reaches_the_publishing_group steady
           (from_private [url]) (from_group []) fresh_world url "Gadget"
           "1001" "https://s.click.aliexpress.com/e/_abc" []).
  - reflexivity.
  - reflexivity.
  - reflexivity.
  - vm_compute; reflexivity.
  - intros n; reflexivity.
  - intros n; reflexivity.
  - discriminate.
  - exact Hg.
  - intros n; reflexivity.
Defined.

(** X15 with A and B queued. *)
Lemma nothing_is_sent_after_clear_witness :
  let w := world_with [deal_A; deal_B] in
  let w' := exec (handle_clear_links steady (from_private [])) w in
  fs_write steady (clock w) = Written
  ∧ link_queue w' = []
  ∧ links_file w' = Stored []
  ∧ sent (exec (handle_publish_command steady (from_group [])) w') = [].
Proof.
  intros w w'. split; [reflexivity|].
  destruct (nothing_is_sent_after_clear steady (from_private []) w eq_refl)
    as (Hq & _ & Hf & Hp & _).
  split; [exact Hq|]. split; [exact (proj1 (Hf eq_refl))|].
  exact (proj1 (Hp (from_group []))).
Defined.

(** X16 on a disk that refuses the write: the link enqueued is not
    there after a restart. *)
Lemma restart_gives_back_what_was_written_witness :
  let w := world_with [deal_A] in
  links_file w = Stored (link_queue w)
  ∧ link_queue (exec startup w) = [deal_A]
  ∧ link_queue (exec (enqueue read_only_disk deal_B) w) = [deal_A; deal_B]
  ∧ link_queue (exec startup (exec (enqueue read_only_disk deal_B) w))
    = [deal_A].
Proof.
  intros w. split; [reflexivity|].
  destruct (restart_gives_back_what_was_written read_only_disk w)
    as (_ & H2 & H3 & _).
  split; [exact (H3 eq_refl)|]. split; [reflexivity|exact (H2 deal_B)].
Defined.

